(** * The client-side API access layer of the Brent oil dashboard

    A shallow embedding of [frontend/src/services/api.js]: the axios
    instance with its request and response interceptors, the response
    cache with its five-minute lifetime, the exported fetch and export
    functions, [clearCache] and [batchRequests]; followed by the
    properties of the access layer that the specification states and
    further ones read off the code, and by the pagination of
    [frontend/src/components/EventTimeline.js]. *)

From Stdlib Require Import ZArith Lia Bool List Ascii String.
From Stdlib Require Import DecimalString DecimalZ DecimalPos.
From stdpp Require Import base option list strings gmap.

Set Warnings "-register-all".
Local Open Scope string_scope.
Local Open Scope Z_scope.

(** ** JavaScript values *)

Module JS.

(** The values that flow through the access layer: request parameters,
    response bodies, rejection reasons.  A number is an integer (the
    query parameters and status codes of this program), meant to be one
    that a double holds exactly: of magnitude below 2^53, where
    [JSON.stringify] and [ToString] print its decimal digits.  A
    string is a sequence of code units below 256.  [JObj] lists the own
    enumerable properties of a plain object in the order in which
    [Object.keys] and [JSON.stringify] enumerate them; [JBlob] is the
    opaque body of a response requested with [responseType: 'blob']. *)
Inductive value : Type :=
| JUndefined
| JNull
| JBool (b : bool)
| JNum (n : Z)
| JStr (s : string)
| JArr (items : list value)
| JObj (props : list (string * value))
| JBlob (bytes : string).

(** ToBoolean: what [if (x)], [x && y], [x || y] and [x ? y : z] test. *)
Definition truthy (v : value) : bool :=
  match v with
  | JUndefined | JNull => false
  | JBool b => b
  | JNum n => negb (n =? 0)
  | JStr s => negb (String.eqb s EmptyString)
  | JArr _ | JObj _ | JBlob _ => true
  end.

(** [a || b] *)
Definition or_else (a b : value) : value := if truthy a then a else b.

(** Property lookup on an enumerated property list. *)
Fixpoint lookup_prop (k : string) (props : list (string * value)) : value :=
  match props with
  | [] => JUndefined
  | (k', v) :: rest => if String.eqb k k' then v else lookup_prop k rest
  end.

(** [v === 'literal'] *)
Definition is_string (v : value) (literal : string) : bool :=
  match v with
  | JStr s => String.eqb s literal
  | _ => false
  end.

(** [v.k] for a data property name [k] that no prototype defines (such
    as [message]): only a plain object can have it. *)
Definition get (v : value) (k : string) : value :=
  match v with
  | JObj props => lookup_prop k props
  | _ => JUndefined
  end.

(** [v?.k]: undefined when [v] is null or undefined, else [v.k]. *)
Definition opt_get (v : value) (k : string) : value :=
  match v with
  | JUndefined | JNull => JUndefined
  | _ => get v k
  end.

(** *** Object literals and property order *)

(** A property key is an array index when it is the canonical decimal
    form of an integer below 2^32 - 1. *)
Definition is_digit (c : ascii) : bool :=
  (48 <=? nat_of_ascii c)%nat && (nat_of_ascii c <=? 57)%nat.

Fixpoint digits_value (s : string) (acc : N) : option N :=
  match s with
  | EmptyString => Some acc
  | String c rest =>
      if is_digit c
      then digits_value rest (acc * 10 + (N_of_ascii c - 48))%N
      else None
  end.

Definition array_index (k : string) : option N :=
  match k with
  | EmptyString => None
  | String "0" EmptyString => Some 0%N
  | String "0" _ => None
  | String _ _ =>
      if (10 <? Z.of_nat (String.length k))
      then None
      else match digits_value k 0%N with
           | Some n => if (n <? 4294967295)%N then Some n else None
           | None => None
           end
  end.

(** Position of a new property: integer-like keys come first, in
    ascending numeric order; every other key goes after all existing
    properties. *)
Fixpoint place (k : string) (v : value) (props : list (string * value))
  : list (string * value) :=
  match props with
  | [] => [(k, v)]
  | (k', v') :: rest =>
      match array_index k, array_index k' with
      | Some n, Some n' =>
          if (n <? n')%N then (k, v) :: props else (k', v') :: place k v rest
      | Some _, None => (k, v) :: props
      | None, _ => (k', v') :: place k v rest
      end
  end.

(** Overwriting keeps the position the key already has. *)
Fixpoint overwrite (k : string) (v : value) (props : list (string * value))
  : option (list (string * value)) :=
  match props with
  | [] => None
  | (k', v') :: rest =>
      if String.eqb k k' then Some ((k, v) :: rest)
      else match overwrite k v rest with
           | Some rest' => Some ((k', v') :: rest')
           | None => None
           end
  end.

Definition define (props : list (string * value)) (kv : string * value)
  : list (string * value) :=
  match overwrite kv.1 kv.2 props with
  | Some props' => props'
  | None => place kv.1 kv.2 props
  end.

(** The object literal [{k1: v1, ..., kn: vn}], properties defined left
    to right. *)
Definition object (inits : list (string * value)) : value :=
  JObj (fold_left define inits []).

(** *** JSON.stringify *)

Definition hex_digit (n : nat) : ascii :=
  ascii_of_nat (if (n <? 10)%nat then 48 + n else 87 + n).

Definition dquote : ascii := "034"%char.

(** QuoteJSONString, one code unit. *)
Definition escape (c : ascii) : string :=
  let n := nat_of_ascii c in
  if (n =? 8)%nat then "\b"
  else if (n =? 9)%nat then "\t"
  else if (n =? 10)%nat then "\n"
  else if (n =? 12)%nat then "\f"
  else if (n =? 13)%nat then "\r"
  else if (n =? 34)%nat then String "\" (String dquote EmptyString)
  else if (n =? 92)%nat then "\\"
  else if (n <? 32)%nat
       then "\u00" +:+ String (hex_digit (n / 16)) (String (hex_digit (n mod 16)) EmptyString)
  else String c EmptyString.

Fixpoint escape_all (s : string) : string :=
  match s with
  | EmptyString => EmptyString
  | String c rest => escape c +:+ escape_all rest
  end.

Definition quote (s : string) : string :=
  String dquote (escape_all s +:+ String dquote EmptyString).

(** Number::toString on an integer of magnitude below 2^53.  A larger
    number is a double that JavaScript prints with the shortest digits
    that read back as the same double (2^64 as 18446744073709552000),
    which this function does not do. *)
Definition number_to_string (n : Z) : string :=
  NilZero.string_of_int (Z.to_int n).

Fixpoint join (parts : list string) : string :=
  match parts with
  | [] => EmptyString
  | [p] => p
  | p :: rest => p +:+ "," +:+ join rest
  end.

(** SerializeJSONProperty; [None] is the result [undefined].  An array
    prints an element without a JSON form as [null]; an object leaves a
    property without a JSON form out. *)
Fixpoint serialize (v : value) : option string :=
  match v with
  | JUndefined => None
  | JNull => Some "null"
  | JBool true => Some "true"
  | JBool false => Some "false"
  | JNum n => Some (number_to_string n)
  | JStr s => Some (quote s)
  | JArr items =>
      let fix elements (l : list value) : list string :=
        match l with
        | [] => []
        | x :: rest => default "null" (serialize x) :: elements rest
        end in
      Some ("[" +:+ join (elements items) +:+ "]")
  | JObj props =>
      let fix members (l : list (string * value)) : list string :=
        match l with
        | [] => []
        | (k, x) :: rest =>
            match serialize x with
            | Some s => (quote k +:+ ":" +:+ s) :: members rest
            | None => members rest
            end
        end in
      Some ("{" +:+ join (members props) +:+ "}")
  | JBlob _ => Some "{}"
  end.

(** [`${x}`] of the result of [JSON.stringify]. *)
Definition stringify (v : value) : string :=
  default "undefined" (serialize v).

End JS.

Import JS.


(** [encodeURIComponent] on code units below 256: an unreserved
    character stays, anything else becomes the percent-escaped bytes of
    its UTF-8 form. *)
Definition HEX_digit (n : nat) : ascii :=
  ascii_of_nat (if (n <? 10)%nat then 48 + n else 55 + n).

Definition percent (n : nat) : string :=
  String "%" (String (HEX_digit (n / 16)) (String (HEX_digit (n mod 16)) EmptyString)).

Definition unreserved (c : ascii) : bool :=
  let n := nat_of_ascii c in
  ((65 <=? n) && (n <=? 90))%nat || ((97 <=? n) && (n <=? 122))%nat
  || ((48 <=? n) && (n <=? 57))%nat
  || existsb (Nat.eqb n) [45; 95; 46; 33; 126; 42; 39; 40; 41]%nat.

Definition encode_unit (c : ascii) : string :=
  let n := nat_of_ascii c in
  if unreserved c then String c EmptyString
  else if (n <? 128)%nat then percent n
  else percent (192 + n / 64) +:+ percent (128 + n mod 64).

Fixpoint encodeURIComponent (s : string) : string :=
  match s with
  | EmptyString => EmptyString
  | String c rest => encode_unit c +:+ encodeURIComponent rest
  end.

(** ** The axios library, as far as the access layer relies on it *)

Module Axios.

Record Response := { status : Z; data : value }.

(** What the per-call config object of [api.get(url, config)] may set. *)
Record GetConfig := { get_params : value; get_responseType : value }.

Definition no_config : GetConfig :=
  {| get_params := JUndefined; get_responseType := JUndefined |}.

(** The merged config that reaches the request interceptors and then
    the transport; [request_data] is its [data], the body to send. *)
Record RequestConfig := {
  url : string;
  method : string;
  baseURL : string;
  timeout : Z;
  headers : gmap string string;
  params : value;
  request_data : value;
  responseType : value
}.

Record Defaults := {
  default_baseURL : string;
  default_timeout : Z;
  default_headers : gmap string string
}.

(** [get(url, config)] merges the defaults with the per-call config,
    whose [data] none of the calls of this program sets. *)
Definition merge (d : Defaults) (u : string) (c : GetConfig) : RequestConfig :=
  {| url := u; method := "get"; baseURL := default_baseURL d;
     timeout := default_timeout d; headers := default_headers d;
     params := get_params c; request_data := JUndefined;
     responseType := get_responseType c |}.

Definition set_header (k v : string) (c : RequestConfig) : RequestConfig :=
  {| url := url c; method := method c; baseURL := baseURL c;
     timeout := timeout c; headers := <[k := v]> (headers c);
     params := params c; request_data := request_data c;
     responseType := responseType c |}.


(** What the network does with one request: after [elapsed]
    milliseconds either a complete HTTP response is there or the
    connection has failed. *)
Record Wire := { elapsed : Z; reply : option Response }.

Record Error := { message : string; code : value; response : option Response }.

(** The default [validateStatus]. *)
Definition validateStatus (st : Z) : bool := (200 <=? st) && (st <? 300).

(** How the adapter settles a request: the timer of [config.timeout]
    milliseconds wins over a later answer; a failed connection is a
    network error; a response is resolved or rejected by its status. *)
Definition settle (c : RequestConfig) (w : Wire) : Response + Error :=
  if (0 <? timeout c) && (timeout c <? elapsed w) then
    inr {| message := "timeout of " +:+ number_to_string (timeout c) +:+ "ms exceeded";
           code := JStr "ECONNABORTED"; response := None |}
  else
    match reply w with
    | None =>
        inr {| message := "Network Error"; code := JStr "ERR_NETWORK";
               response := None |}
    | Some r =>
        if validateStatus (status r) then inl r
        else
          inr {| message := "Request failed with status code "
                            +:+ number_to_string (status r);
                 code := if status r / 100 =? 4 then JStr "ERR_BAD_REQUEST"
                         else if status r / 100 =? 5 then JStr "ERR_BAD_RESPONSE"
                         else JUndefined;
                 response := Some r |}
    end.

End Axios.

(** ** State, environment and the asynchronous-function monad *)

(** An entry of the module-level [cache] map. *)
Record CacheEntry := { data : value; timestamp : Z }.

(** The mutable state the module works on: its [cache], and as
    observable output the lines written with [console.error] and the
    requests handed to the transport, oldest first. *)
Record World := {
  cache : gmap string CacheEntry;
  console : list (list string);
  network : list Axios.RequestConfig
}.

(** What one run-to-completion segment reads from its surroundings:
    the clock ([Date.now()], and [new Date().toISOString()] of the same
    instant), [localStorage] and [process.env.REACT_APP_API_URL]. *)
Record Env := {
  now : Z;
  iso_now : string;
  localStorage : gmap string string;
  REACT_APP_API_URL : option string
}.

(** How a segment of an async function ends: the promise is fulfilled,
    it is rejected, or the function waits for the transport and resumes,
    in a later segment with its own surroundings, on what the network
    delivers. *)
Inductive Settled (A : Type) : Type :=
| Fulfilled (a : A)
| Rejected (reason : value)
| Awaiting (request : Axios.RequestConfig)
           (resume : Axios.Wire -> Env -> World -> World * Settled A).
Arguments Fulfilled {A} a.
Arguments Rejected {A} reason.
Arguments Awaiting {A} request resume.

Definition Async (A : Type) : Type := Env -> World -> World * Settled A.

Definition ret {A} (a : A) : Async A := fun _ w => (w, Fulfilled a).

Definition reject {A} (reason : value) : Async A := fun _ w => (w, Rejected reason).

Fixpoint then_ {A B} (s : Settled A) (f : A -> Async B) (e : Env) (w : World)
  : World * Settled B :=
  match s with
  | Fulfilled a => f a e w
  | Rejected r => (w, Rejected r)
  | Awaiting c k =>
      (w, Awaiting c (fun wr e' w' =>
                        let (w'', s') := k wr e' w' in then_ s' f e' w''))
  end.

Definition bind {A B} (m : Async A) (f : A -> Async B) : Async B :=
  fun e w => let (w', s) := m e w in then_ s f e w'.

Notation "x <- m ;; k" := (bind m (fun x => k))
  (at level 100, m at next level, right associativity).
Notation "m ;;; k" := (bind m (fun _ => k))
  (at level 100, right associativity).

(** The primitive effects. *)
Definition Date_now : Async Z := fun e w => (w, Fulfilled (now e)).

Definition Date_toISOString : Async string := fun e w => (w, Fulfilled (iso_now e)).

Definition localStorage_getItem (k : string) : Async (option string) :=
  fun e w => (w, Fulfilled (localStorage e !! k)).

Definition cache_get (k : string) : Async (option CacheEntry) :=
  fun _ w => (w, Fulfilled (cache w !! k)).

Definition cache_set (k : string) (c : CacheEntry) : Async unit :=
  fun _ w => ({| cache := <[k := c]> (cache w); console := console w;
                 network := network w |}, Fulfilled tt).

Definition cache_delete (k : string) : Async unit :=
  fun _ w => ({| cache := delete k (cache w); console := console w;
                 network := network w |}, Fulfilled tt).

Definition cache_clear : Async unit :=
  fun _ w => ({| cache := ∅; console := console w; network := network w |},
              Fulfilled tt).

Definition console_error (args : list string) : Async unit :=
  fun _ w => ({| cache := cache w; console := console w ++ [args];
                 network := network w |}, Fulfilled tt).

(** Hand a request to the transport and wait for the network. *)
Definition transport (c : Axios.RequestConfig) : Async Axios.Wire :=
  fun _ w => ({| cache := cache w; console := console w;
                 network := network w ++ [c] |},
              Awaiting c (fun wr _ w' => (w', Fulfilled wr))).

(** ** [services/api.js] *)

(** [ToString], as a template literal applies it. *)
Fixpoint to_string (v : value) : string :=
  match v with
  | JUndefined => "undefined"
  | JNull => "null"
  | JBool true => "true"
  | JBool false => "false"
  | JNum n => number_to_string n
  | JStr s => s
  | JArr items =>
      let fix elements (l : list value) : list string :=
        match l with
        | [] => []
        | JUndefined :: rest | JNull :: rest => EmptyString :: elements rest
        | x :: rest => to_string x :: elements rest
        end in
      join (elements items)
  | JObj _ => "[object Object]"
  | JBlob _ => "[object Blob]"
  end.

(** A parameter default, [(x = d) => ...]. *)
Definition default_arg (x d : value) : value :=
  match x with JUndefined => d | _ => x end.

(** [process.env.REACT_APP_API_URL || 'http://localhost:5000/api'] *)
Definition API_BASE_URL (e : Env) : string :=
  match REACT_APP_API_URL e with
  | Some u => if truthy (JStr u) then u else "http://localhost:5000/api"
  | None => "http://localhost:5000/api"
  end.

(** The instance made by [axios.create]. *)
Definition api (e : Env) : Axios.Defaults :=
  {| Axios.default_baseURL := API_BASE_URL e;
     Axios.default_timeout := 30000;
     Axios.default_headers :=
       <["Content-Type" := "application/json"]>
         (<["Accept" := "application/json"]> ∅) |}.

(** The request interceptor. *)
Definition request_interceptor (config : Axios.RequestConfig)
  : Async Axios.RequestConfig :=
  token <- localStorage_getItem "auth_token" ;;
  let config :=
    match token with
    | Some t =>
        if truthy (JStr t)
        then Axios.set_header "Authorization" ("Bearer " +:+ t) config
        else config
    | None => config
    end in
  stamp <- Date_toISOString ;;
  ret (Axios.set_header "X-Request-Timestamp" stamp config).

(** The response interceptor, success side. *)
Definition response_fulfilled (response : Axios.Response) : Async value :=
  ret (Axios.data response).

(** [error.response?.status] and [error.response?.data] *)
Definition response_status (error : Axios.Error) : value :=
  match Axios.response error with
  | Some r => JNum (Axios.status r)
  | None => JUndefined
  end.

Definition response_data (error : Axios.Error) : value :=
  match Axios.response error with
  | Some r => Axios.data r
  | None => JUndefined
  end.

(** The response interceptor, error side. *)
Definition response_rejected (error : Axios.Error) : Async value :=
  (match Axios.response error with
   | Some response =>
       let st := Axios.status response in
       if st =? 401 then console_error ["Unauthorized access"]
       else if st =? 403 then console_error ["Forbidden access"]
       else if st =? 404 then console_error ["Resource not found"]
       else if st =? 500 then console_error ["Internal server error"]
       else if st =? 503 then console_error ["Service unavailable"]
       else console_error ["API error:"; Axios.message error]
   | None =>
       if is_string (Axios.code error) "ECONNABORTED"
       then console_error ["Request timeout"]
       else if is_string (Axios.code error) "ERR_NETWORK"
       then console_error ["Network error"]
       else ret tt
   end) ;;;
  reject (object [("success", JBool false);
                  ("message", or_else (opt_get (response_data error) "message")
                                      (JStr (Axios.message error)));
                  ("status", response_status error);
                  ("data", response_data error)]).

(** [api.get(url, config)]: merge the config, run the request
    interceptor, wait for the transport, run the response interceptor. *)
Definition api_get (u : string) (config : Axios.GetConfig) : Async value :=
  fun e =>
    (request <- request_interceptor (Axios.merge (api e) u config) ;;
     wire <- transport request ;;
     match Axios.settle request wire with
     | inl response => response_fulfilled response
     | inr error => response_rejected error
     end) e.

Definition CACHE_DURATION : Z := 5 * 60 * 1000.

Definition getCacheKey (u : string) (params : value) : string :=
  let paramString := if truthy params then stringify params else EmptyString in
  u +:+ ":" +:+ paramString.

Definition getFromCache (key : string) : Async value :=
  cached <- cache_get key ;;
  match cached with
  | Some c =>
      t <- Date_now ;;
      if t - timestamp c <? CACHE_DURATION then ret (data c)
      else (cache_delete key ;;; ret JNull)
  | None => cache_delete key ;;; ret JNull
  end.

Definition setToCache (key : string) (d : value) : Async unit :=
  t <- Date_now ;;
  cache_set key {| data := d; timestamp := t |}.

Definition with_params (params : value) : Axios.GetConfig :=
  {| Axios.get_params := params; Axios.get_responseType := JUndefined |}.

Definition as_blob : Axios.GetConfig :=
  {| Axios.get_params := JUndefined; Axios.get_responseType := JStr "blob" |}.

Definition healthCheck : Async value :=
  let cacheKey := getCacheKey "/health" JUndefined in
  cached <- getFromCache cacheKey ;;
  if truthy cached then ret cached else
  response <- api_get "/health" Axios.no_config ;;
  setToCache cacheKey response ;;;
  ret response.

Definition fetchPrices (params : value) : Async value :=
  let params := default_arg params (object []) in
  let cacheKey := getCacheKey "/prices" params in
  cached <- getFromCache cacheKey ;;
  if truthy cached then ret cached else
  response <- api_get "/prices" (with_params params) ;;
  setToCache cacheKey response ;;;
  ret response.

Definition fetchEvents (params : value) : Async value :=
  let params := default_arg params (object []) in
  let cacheKey := getCacheKey "/events" params in
  cached <- getFromCache cacheKey ;;
  if truthy cached then ret cached else
  response <- api_get "/events" (with_params params) ;;
  setToCache cacheKey response ;;;
  ret response.

Definition fetchChangePoints : Async value :=
  let cacheKey := getCacheKey "/change-points" JUndefined in
  cached <- getFromCache cacheKey ;;
  if truthy cached then ret cached else
  response <- api_get "/change-points" Axios.no_config ;;
  setToCache cacheKey response ;;;
  ret response.

Definition fetchMetrics : Async value :=
  let cacheKey := getCacheKey "/metrics" JUndefined in
  cached <- getFromCache cacheKey ;;
  if truthy cached then ret cached else
  response <- api_get "/metrics" Axios.no_config ;;
  setToCache cacheKey response ;;;
  ret response.

Definition fetchSummaryMetrics : Async value :=
  let cacheKey := getCacheKey "/metrics" JUndefined in
  cached <- getFromCache cacheKey ;;
  if truthy cached then ret cached else
  response <- api_get "/metrics" Axios.no_config ;;
  setToCache cacheKey response ;;;
  ret response.

Definition fetchEventImpact (eventName : value) : Async value :=
  response <- api_get ("/analysis/event-impact/"
                       +:+ encodeURIComponent (to_string eventName))
                      Axios.no_config ;;
  ret response.

Definition fetchSeasonality : Async value :=
  let cacheKey := getCacheKey "/analysis/seasonality" JUndefined in
  cached <- getFromCache cacheKey ;;
  if truthy cached then ret cached else
  response <- api_get "/analysis/seasonality" Axios.no_config ;;
  setToCache cacheKey response ;;;
  ret response.

Definition fetchDashboardConfig : Async value :=
  response <- api_get "/config" Axios.no_config ;;
  ret response.

Definition exportPrices (format : value) : Async value :=
  let format := default_arg format (JStr "csv") in
  response <- api_get ("/export/prices?format=" +:+ to_string format) as_blob ;;
  ret response.

Definition exportEvents (format : value) : Async value :=
  let format := default_arg format (JStr "json") in
  response <- api_get ("/export/events?format=" +:+ to_string format) as_blob ;;
  ret response.

Definition clearCache : Async unit := cache_clear.


(** [batchRequests] works on promises that exist already; such a promise
    is given by what eventually becomes of it. *)
Inductive Promise (A : Type) : Type :=
| Fulfils (a : A)
| Rejects (reason : value)
| Pends.
Arguments Fulfils {A} a.
Arguments Rejects {A} reason.
Arguments Pends {A}.

Module Batch.

(** An element of the array [Promise.allSettled] fulfils with:
    [{status: 'fulfilled', value}] or [{status: 'rejected', reason}];
    a property that is not there reads as undefined. *)
Record SettledResult := { status : string; value : JS.value; reason : JS.value }.

(** An element of the array [batchRequests] returns. *)
Record Item := {
  request : option (Promise JS.value);
  item_status : string;
  data : JS.value;
  error : JS.value
}.

End Batch.

(** [Promise.allSettled]: waits for every input to settle, never
    rejects, and keeps the order of the inputs. *)
Fixpoint Promise_allSettled (requests : list (Promise value))
  : Promise (list Batch.SettledResult) :=
  match requests with
  | [] => Fulfils []
  | p :: rest =>
      match p, Promise_allSettled rest with
      | Pends, _ => Pends
      | _, Pends => Pends
      | _, Rejects r => Rejects r
      | Fulfils v, Fulfils results =>
          Fulfils ({| Batch.status := "fulfilled"; Batch.value := v;
                      Batch.reason := JUndefined |} :: results)
      | Rejects r, Fulfils results =>
          Fulfils ({| Batch.status := "rejected"; Batch.value := JUndefined;
                      Batch.reason := r |} :: results)
      end
  end.

(** [await p] followed by the rest of an async function body that
    cannot throw. *)
Definition await_then {A B} (p : Promise A) (f : A -> B) : Promise B :=
  match p with
  | Fulfils a => Fulfils (f a)
  | Rejects r => Rejects r
  | Pends => Pends
  end.

Definition batchRequests (requests : list (Promise value))
  : Promise (list Batch.Item) :=
  await_then (Promise_allSettled requests) (fun results =>
    imap (fun index result =>
            {| Batch.request := requests !! index;
               Batch.item_status := Batch.status result;
               Batch.data := if String.eqb (Batch.status result) "fulfilled"
                             then Batch.value result else Batch.reason result;
               Batch.error := if String.eqb (Batch.status result) "rejected"
                              then Batch.reason result else JNull |})
         results).

(** ** The access layer on the event loop *)

(** A call of one of the exported asynchronous functions. *)
Inductive Call : Type :=
| HealthCheck
| FetchPrices (params : value)
| FetchEvents (params : value)
| FetchChangePoints
| FetchMetrics
| FetchSummaryMetrics
| FetchEventImpact (eventName : value)
| FetchSeasonality
| FetchDashboardConfig
| ExportPrices (format : value)
| ExportEvents (format : value).

Definition invoke (c : Call) : Async value :=
  match c with
  | HealthCheck => healthCheck
  | FetchPrices params => fetchPrices params
  | FetchEvents params => fetchEvents params
  | FetchChangePoints => fetchChangePoints
  | FetchMetrics => fetchMetrics
  | FetchSummaryMetrics => fetchSummaryMetrics
  | FetchEventImpact eventName => fetchEventImpact eventName
  | FetchSeasonality => fetchSeasonality
  | FetchDashboardConfig => fetchDashboardConfig
  | ExportPrices format => exportPrices format
  | ExportEvents format => exportEvents format
  end.

(** A call that waits for the network. *)
Record Task := {
  caller : Call;
  request : Axios.RequestConfig;
  resume : Axios.Wire -> Env -> World -> World * Settled value
}.

(** The module state together with the calls in flight. *)
Record System := { world : World; pending : list Task }.

(** What the event loop runs, one segment at a time: a caller invokes
    a function, the network settles the request of a waiting call, or a
    caller clears the cache. *)
Inductive Event : Type :=
| Invoke (c : Call) (e : Env)
| Deliver (i : nat) (wire : Axios.Wire) (e : Env)
| ClearCache (e : Env).

(** What the caller of the segment's function sees when it ends. *)
Inductive Outcome : Type :=
| Returned (c : Call) (v : value)
| Threw (c : Call) (reason : value)
| Waiting (c : Call)
| Quiet.

Definition conclude (c : Call) (others : list Task) (r : World * Settled value)
  : System * Outcome :=
  match r with
  | (w, Fulfilled v) => ({| world := w; pending := others |}, Returned c v)
  | (w, Rejected reason) => ({| world := w; pending := others |}, Threw c reason)
  | (w, Awaiting req k) =>
      ({| world := w;
          pending := others ++ [{| caller := c; request := req; resume := k |}] |},
       Waiting c)
  end.

Definition step (s : System) (ev : Event) : System * Outcome :=
  match ev with
  | Invoke c e => conclude c (pending s) (invoke c e (world s))
  | Deliver i wire e =>
      match pending s !! i with
      | Some t => conclude (caller t) (delete i (pending s)) (resume t wire e (world s))
      | None => (s, Quiet)
      end
  | ClearCache e =>
      ({| world := (clearCache e (world s)).1; pending := pending s |}, Quiet)
  end.

Definition exec (s : System) (evs : list Event) : System :=
  fold_left (fun s ev => (step s ev).1) evs s.

(** The system before any call: an empty cache, nothing in flight. *)
Definition boot : System :=
  {| world := {| cache := ∅; console := []; network := [] |}; pending := [] |}.

(** The cache key a call works under; [None] for the functions that do
    not use the cache. *)
Definition key_of (c : Call) : option string :=
  match c with
  | HealthCheck => Some (getCacheKey "/health" JUndefined)
  | FetchPrices params => Some (getCacheKey "/prices" (default_arg params (object [])))
  | FetchEvents params => Some (getCacheKey "/events" (default_arg params (object [])))
  | FetchChangePoints => Some (getCacheKey "/change-points" JUndefined)
  | FetchMetrics | FetchSummaryMetrics => Some (getCacheKey "/metrics" JUndefined)
  | FetchSeasonality => Some (getCacheKey "/analysis/seasonality" JUndefined)
  | FetchEventImpact _ | FetchDashboardConfig | ExportPrices _ | ExportEvents _ => None
  end.

(** ** Derived notions used in the statements *)

(** The request [api.get(u, c)] hands to the transport in surroundings
    [e]: the merged config after the request interceptor. *)
Definition outgoing (e : Env) (u : string) (c : Axios.GetConfig)
  : Axios.RequestConfig :=
  Axios.set_header "X-Request-Timestamp" (iso_now e)
    (match localStorage e !! "auth_token" with
     | Some t =>
         if truthy (JStr t)
         then Axios.set_header "Authorization" ("Bearer " +:+ t)
                (Axios.merge (api e) u c)
         else Axios.merge (api e) u c
     | None => Axios.merge (api e) u c
     end).

Definition sent (c : Axios.RequestConfig) (w : World) : World :=
  {| cache := cache w; console := console w; network := network w ++ [c] |}.

Definition evict (k : string) (w : World) : World :=
  {| cache := delete k (cache w); console := console w; network := network w |}.

Definition stored (k : string) (d : value) (t : Z) (w : World) : World :=
  {| cache := <[k := {| data := d; timestamp := t |}]> (cache w);
     console := console w; network := network w |}.

Definition logged (lines : list (list string)) (w : World) : World :=
  {| cache := cache w; console := console w ++ lines; network := network w |}.


(** The response side of [api.get]: what the interceptors make of the
    settled request. *)
Definition receive (req : Axios.RequestConfig) (wr : Axios.Wire) : Async value :=
  match Axios.settle req wr with
  | inl r => response_fulfilled r
  | inr err => response_rejected err
  end.

(** The rejection value of the error interceptor. *)
Definition normalized (error : Axios.Error) : value :=
  JObj [("success", JBool false);
        ("message", or_else (opt_get (response_data error) "message")
                            (JStr (Axios.message error)));
        ("status", response_status error);
        ("data", response_data error)].

(** The lines the error interceptor writes to the console. *)
Definition diagnostic (error : Axios.Error) : list (list string) :=
  match Axios.response error with
  | Some response =>
      let st := Axios.status response in
      if st =? 401 then [["Unauthorized access"]]
      else if st =? 403 then [["Forbidden access"]]
      else if st =? 404 then [["Resource not found"]]
      else if st =? 500 then [["Internal server error"]]
      else if st =? 503 then [["Service unavailable"]]
      else [["API error:"; Axios.message error]]
  | None =>
      if is_string (Axios.code error) "ECONNABORTED" then [["Request timeout"]]
      else if is_string (Axios.code error) "ERR_NETWORK" then [["Network error"]]
      else []
  end.

(** The two shapes the exported functions have: look in the cache,
    else fetch and store; or fetch without the cache. *)
Definition cached_get (u : string) (params : value) (config : Axios.GetConfig)
  : Async value :=
  let cacheKey := getCacheKey u params in
  cached <- getFromCache cacheKey ;;
  if truthy cached then ret cached else
  response <- api_get u config ;;
  setToCache cacheKey response ;;;
  ret response.

Definition direct_get (u : string) (config : Axios.GetConfig) : Async value :=
  response <- api_get u config ;;
  ret response.

(** What a waiting call does when its request settles. *)
Definition resume_cached (key : string) (req : Axios.RequestConfig)
  : Axios.Wire -> Env -> World -> World * Settled value :=
  fun wr e w =>
    let (w', s) := receive req wr e w in
    then_ s (fun response => setToCache key response ;;; ret response) e w'.

Definition resume_direct (req : Axios.RequestConfig)
  : Axios.Wire -> Env -> World -> World * Settled value :=
  fun wr e w =>
    let (w', s) := receive req wr e w in
    then_ s (fun response => ret response) e w'.

(** The URL and per-call config of a call. *)
Definition url_of (c : Call) : string :=
  match c with
  | HealthCheck => "/health"
  | FetchPrices _ => "/prices"
  | FetchEvents _ => "/events"
  | FetchChangePoints => "/change-points"
  | FetchMetrics | FetchSummaryMetrics => "/metrics"
  | FetchEventImpact eventName =>
      "/analysis/event-impact/" +:+ encodeURIComponent (to_string eventName)
  | FetchSeasonality => "/analysis/seasonality"
  | FetchDashboardConfig => "/config"
  | ExportPrices format =>
      "/export/prices?format=" +:+ to_string (default_arg format (JStr "csv"))
  | ExportEvents format =>
      "/export/events?format=" +:+ to_string (default_arg format (JStr "json"))
  end.

Definition config_of (c : Call) : Axios.GetConfig :=
  match c with
  | FetchPrices params | FetchEvents params =>
      with_params (default_arg params (object []))
  | ExportPrices _ | ExportEvents _ => as_blob
  | _ => Axios.no_config
  end.

Definition resume_of (c : Call) (req : Axios.RequestConfig)
  : Axios.Wire -> Env -> World -> World * Settled value :=
  match key_of c with
  | Some k => resume_cached k req
  | None => resume_direct req
  end.

(** A waiting call as an invocation of its function leaves it. *)
Definition issued (t : Task) : Prop :=
  exists e, request t = outgoing e (url_of (caller t)) (config_of (caller t))
            /\ resume t = resume_of (caller t) (request t).

Definition well_formed (s : System) : Prop := Forall issued (pending s).

Definition reachable (s : System) : Prop := exists evs, exec boot evs = s.

(** A cache entry is live for a reader whose clock shows [t]. *)
Definition live (c : CacheEntry) (t : Z) : bool := t - timestamp c <? CACHE_DURATION.

(** ** Statements and scenarios *)

(** *** Waiting calls *)

(** The waiting call that an invocation of [c] in surroundings [e]
    leaves when it goes to the network. *)
Definition task_of (c : Call) (e : Env) : Task :=
  let req := outgoing e (url_of c) (config_of c) in
  {| caller := c; request := req; resume := resume_of c req |}.

(** What the transport rejects with when the 30 seconds have passed. *)
Definition timeout_error : Axios.Error :=
  {| Axios.message := "timeout of 30000ms exceeded";
     Axios.code := JStr "ECONNABORTED"; Axios.response := None |}.

(** *** A session to try the statements on *)

Definition at_time (t : Z) : Env :=
  {| now := t; iso_now := "2024-03-01T09:00:00.000Z"; localStorage := ∅;
     REACT_APP_API_URL := None |}.

Definition answer (ms st : Z) (body : value) : Axios.Wire :=
  {| Axios.elapsed := ms;
     Axios.reply := Some {| Axios.status := st; Axios.data := body |} |}.

(** One call of [fetchMetrics] is waiting for the network. *)
Definition metrics_requested : System := exec boot [Invoke FetchMetrics (at_time 0)].

Definition no_data : value :=
  object [("success", JBool false); ("message", JStr "no data")].

(** *** C2: a 2xx response whose body says [success: false] *)

(** The claim as stated: such a response makes the waiting call reject. *)
Definition unsuccessful_body_rejects : Prop :=
  forall s i wr e r,
    reachable s -> is_Some (pending s !! i) ->
    Axios.reply wr = Some r -> Axios.elapsed wr <= 30000 ->
    200 <= Axios.status r < 300 ->
    get (Axios.data r) "success" = JBool false ->
    exists c reason, (step s (Deliver i wr e)).2 = Threw c reason.

(** *** C4: every failure rejects with the normalized error *)

(** A request fails when the 30 seconds pass, when the connection
    fails, or when the response has a status outside 200 to 299. *)
Definition fails (wr : Axios.Wire) : Prop :=
  30000 < Axios.elapsed wr
  \/ Axios.reply wr = None
  \/ exists r, Axios.reply wr = Some r /\ ~ (200 <= Axios.status r < 300).

(** The response the caller's side has got hold of, if any. *)
Definition received (wr : Axios.Wire) : option Axios.Response :=
  if 30000 <? Axios.elapsed wr then None else Axios.reply wr.

Definition failure_status (wr : Axios.Wire) : value :=
  match received wr with Some r => JNum (Axios.status r) | None => JUndefined end.

Definition failure_body (wr : Axios.Wire) : value :=
  match received wr with Some r => Axios.data r | None => JUndefined end.

(** The claim as stated. *)
Definition failures_carry_a_text_message : Prop :=
  forall s i t wr e,
    reachable s -> pending s !! i = Some t -> fails wr ->
    exists reason,
      (step s (Deliver i wr e)).2 = Threw (caller t) reason
      /\ get reason "success" = JBool false
      /\ (exists m, get reason "message" = JStr m /\ m <> EmptyString)
      /\ get reason "status" = failure_status wr.

Definition number_for_message : value := object [("message", JNum 42)].

(** The scenario of the specification: the server answers 404. *)
Definition impact_requested : System :=
  exec boot [Invoke (FetchEventImpact (JStr "unknown")) (at_time 0)].

Definition not_found : Axios.Wire :=
  answer 35 404 (object [("success", JBool false); ("error", JStr "Event not found")]).

(** *** C7: the export functions and the cache *)


(** *** C8: the headers of an outgoing request *)







(** *** C10: [batchRequests] *)

Definition settles {A} (p : Promise A) : Prop := p <> Pends.

(** What [Promise.allSettled] reports for a settled promise. *)
Definition report (p : Promise value) : Batch.SettledResult :=
  match p with
  | Rejects r => {| Batch.status := "rejected"; Batch.value := JUndefined;
                    Batch.reason := r |}
  | Fulfils v => {| Batch.status := "fulfilled"; Batch.value := v;
                    Batch.reason := JUndefined |}
  | Pends => {| Batch.status := "pending"; Batch.value := JUndefined;
                Batch.reason := JUndefined |}
  end.

(** *** C5: [clearCache] *)

(** No response is delivered to a waiting call that works under [k]. *)
Definition unanswered_by (k : string) (s : System) (ev : Event) : Prop :=
  match ev with
  | Deliver i _ _ => forall t, pending s !! i = Some t -> key_of (caller t) <> Some k
  | _ => True
  end.

Fixpoint unanswered (k : string) (s : System) (evs : list Event) : Prop :=
  match evs with
  | [] => True
  | ev :: rest => unanswered_by k s ev /\ unanswered k (step s ev).1 rest
  end.

(** No call that works under [k] is made. *)
Definition no_call_for (k : string) (ev : Event) : Prop :=
  match ev with
  | Invoke c _ => key_of c <> Some k
  | _ => True
  end.

(** The claim as stated: the key of [c] is in the cache; [clearCache]
    runs; events follow, none of them a call for that key; then the call
    [c], the first one for its key since [clearCache], goes to the
    network. *)
Definition first_call_after_clear_is_fetched : Prop :=
  forall s e evs c k e',
    reachable s -> key_of c = Some k -> is_Some (cache (world s) !! k) ->
    Forall (no_call_for k) evs ->
    (step (exec (step s (ClearCache e)).1 evs) (Invoke c e')).2 = Waiting c.

(** Two calls of [fetchMetrics] are in flight and the first has been
    answered. *)
Definition one_of_two_answered : System :=
  exec boot [Invoke FetchMetrics (at_time 0); Invoke FetchMetrics (at_time 10);
             Deliver 0 (answer 50 200 (object [("success", JBool true)])) (at_time 50)].

(** *** C1 and C9: a second call within the lifetime of the entry *)

(** Events that leave the entry under key [k] alone, for a reader whose
    clock will show [limit]: no [clearCache]; no response stored under
    [k] by another call that was waiting; and no call for [k] that reads
    a clock later than [limit] and so could find the entry expired. *)
Definition quiet (k : string) (limit : Z) (s : System) (ev : Event) : Prop :=
  match ev with
  | Invoke c e => key_of c = Some k -> now e <= limit
  | Deliver i wr e => forall t, pending s !! i = Some t -> key_of (caller t) <> Some k
  | ClearCache _ => False
  end.

Fixpoint calm (k : string) (limit : Z) (s : System) (evs : list Event) : Prop :=
  match evs with
  | [] => True
  | ev :: rest => quiet k limit s ev /\ calm k limit (step s ev).1 rest
  end.

Definition no_clear (ev : Event) : Prop :=
  match ev with ClearCache _ => False | _ => True end.

(** The claim as stated, for one function and argument: the call has
    gone to the network, its response resolves it with [payload] at the
    time of [e2]; events other than [clearCache] follow; the same call,
    made at a time less than five minutes later, returns [payload] and
    sends nothing. *)
Definition second_call_served_from_cache (c : Call) : Prop :=
  forall s i t wr e2 s2 payload evs e3,
    reachable s -> pending s !! i = Some t -> caller t = c ->
    step s (Deliver i wr e2) = (s2, Returned c payload) ->
    Forall no_clear evs ->
    now e3 - now e2 < CACHE_DURATION ->
    step (exec s2 evs) (Invoke c e3) = (exec s2 evs, Returned c payload).

Definition config_requested : System :=
  exec boot [Invoke FetchDashboardConfig (at_time 0)].

Definition some_config : value := object [("success", JBool true)].

(** The scenario of the specification: the same events query twice
    within a second, with another call in between. *)
Definition geopolitical : Call :=
  FetchEvents (object [("category", JStr "Geopolitical"); ("min_impact", JStr "High")]).

Definition events_payload : value :=
  object [("success", JBool true); ("data", JArr [])].

Definition events_answered : System :=
  (step (exec boot [Invoke geopolitical (at_time 0)])
        (Deliver 0 (answer 150 200 events_payload) (at_time 150))).1.

(** *** C9: [fetchMetrics] and [fetchSummaryMetrics] *)


Definition metrics_payload : value :=
  object [("success", JBool true); ("data", object [("volatility", JNum 2)])].




(** *** C3: words of one class of characters *)

Fixpoint all_chars (p : ascii -> bool) (s : string) : bool :=
  match s with
  | EmptyString => true
  | String c rest => p c && all_chars p rest
  end.

(** The next character, if there is one, is not of the class [p]. *)
Definition stops (p : ascii -> bool) (r : string) : Prop :=
  match r with
  | EmptyString => True
  | String c _ => p c = false
  end.

(** *** C3: numbers *)

Definition number_char (c : ascii) : bool := is_digit c || Ascii.eqb c "-".

(** *** C3: quoted strings *)

(** Two texts differ at a position that both have. *)
Fixpoint clash (s1 s2 : string) : bool :=
  match s1, s2 with
  | String c1 r1, String c2 r2 => negb (Ascii.eqb c1 c2) || clash r1 r2
  | _, _ => false
  end.

Definition code_units : list nat := seq 0 256.

(** The escapes of two different code units clash, and every escape
    clashes with the closing quote. *)
Definition escape_row (n1 : nat) : bool :=
  clash (escape (ascii_of_nat n1)) (String dquote EmptyString)
  && forallb (fun n2 =>
       (n1 =? n2)%nat || clash (escape (ascii_of_nat n1)) (escape (ascii_of_nat n2)))
     code_units.

(** *** C3: JSON texts *)

(** The values [JSON.parse] can give back: no undefined, no blob. *)
Fixpoint is_json (v : value) : bool :=
  match v with
  | JUndefined | JBlob _ => false
  | JNull | JBool _ | JNum _ | JStr _ => true
  | JArr items => forallb is_json items
  | JObj props => forallb (fun kv => is_json kv.2) props
  end.

(** The elements after the first, each led by a comma, and then [z]. *)
Fixpoint after (parts : list string) (z : string) : string :=
  match parts with
  | [] => z
  | p :: rest => "," +:+ p +:+ after rest z
  end.

Definition element (x : value) : string := default "null" (serialize x).

Definition member (kv : string * value) : option string :=
  match serialize kv.2 with
  | Some s => Some (quote kv.1 +:+ ":" +:+ s)
  | None => None
  end.

Definition pair_text (kv : string * value) : string :=
  quote kv.1 +:+ ":" +:+ stringify kv.2.

(** The first character of a JSON text tells the kind of value. *)
Definition kind (v : value) : nat :=
  match v with
  | JNull => 0 | JBool true => 1 | JBool false => 2 | JNum _ => 3
  | JStr _ => 4 | JArr _ => 5 | JObj _ => 6 | _ => 7
  end.

Definition kind_of_char (c : ascii) : nat :=
  if Ascii.eqb c "n" then 0 else if Ascii.eqb c "t" then 1
  else if Ascii.eqb c "f" then 2 else if number_char c then 3
  else if Ascii.eqb c dquote then 4 else if Ascii.eqb c "[" then 5
  else if Ascii.eqb c "{" then 6 else 7.

(** A JSON text followed by something that does not continue a number
    determines the value and what follows. *)
Definition text_unique (v1 : value) : Prop :=
  forall v2 r1 r2,
    is_json v1 = true -> is_json v2 = true ->
    stops number_char r1 -> stops number_char r2 ->
    stringify v1 +:+ r1 = stringify v2 +:+ r2 -> v1 = v2 /\ r1 = r2.

(** *** C3: object literals with ordinary keys *)

(** Keys that are distinct and not integer-like, with JSON values. *)
Definition ordinary (inits : list (string * value)) : Prop :=
  NoDup inits.*1
  /\ Forall (fun kv => array_index kv.1 = None /\ is_json kv.2 = true) inits.

(** The claim as stated: the same key-value pairs, inserted in any
    order, give the same cache key. *)
Definition key_ignores_insertion_order : Prop :=
  forall u inits1 inits2,
    NoDup inits1.*1 -> inits1 ≡ₚ inits2 ->
    getCacheKey u (object inits1) = getCacheKey u (object inits2).

Definition a_then_b : list (string * value) := [("a", JNum 1); ("b", JNum 2)].
Definition b_then_a : list (string * value) := [("b", JNum 2); ("a", JNum 1)].

(** *** Params whose numbers a double holds exactly *)

(** Every number in the value is an integer of magnitude below 2^53:
    the numbers that [number_to_string] prints as [JSON.stringify]
    does. *)
Fixpoint safe_integers (v : value) : bool :=
  match v with
  | JNum n => Z.abs n <? 2 ^ 53
  | JArr items => forallb safe_integers items
  | JObj props => forallb (fun kv => safe_integers kv.2) props
  | _ => true
  end.

(** *** The URL of [fetchEventImpact] *)

(** The characters [encodeURIComponent] lets through, and the percent
    sign of its escapes. *)
Definition url_safe (c : ascii) : bool := unreserved c || Ascii.eqb c "%".

(** Every text of a list clashes with every later one. *)
Fixpoint pairwise_clash (texts : list string) : bool :=
  match texts with
  | [] => true
  | x :: rest => forallb (clash x) rest && pairwise_clash rest
  end.

(** The encodings of all code units, in order. *)
Definition encodings : list string :=
  map (fun n => encode_unit (ascii_of_nat n)) code_units.

(** ** [components/EventTimeline.js]: the pages of the timeline *)

Module EventTimeline.

(** [Array.prototype.slice(start, end)]: a negative index counts from the
    end of the array, and both indices are clamped to the array. *)
Definition relative_index (len i : Z) : Z :=
  if i <? 0 then Z.max (len + i) 0 else Z.min i len.

Definition slice (array : list value) (start stop : Z) : list value :=
  let len := Z.of_nat (length array) in
  let k := relative_index len start in
  let final := relative_index len stop in
  take (Z.to_nat (Z.max (final - k) 0)) (drop (Z.to_nat k) array).

(** [Math.ceil(n / d)] for an array length [n] and a positive integer [d];
    the quotient of two such numbers is rounded by less than the distance
    to the next integer, so the result is the ceiling of the exact
    quotient. *)
Definition Math_ceil_quotient (n d : Z) : Z := - ((- n) / d).

Definition eventsPerPage : Z := 5.

(** [sortedEvents] is the component's list of events after sorting; the
    pagination below only reads its length and its elements in order. *)
Definition totalPages (sortedEvents : list value) : Z :=
  Math_ceil_quotient (Z.of_nat (length sortedEvents)) eventsPerPage.

Definition currentEvents (sortedEvents : list value) (currentPage : Z)
  : list value :=
  slice sortedEvents (currentPage * eventsPerPage)
        ((currentPage + 1) * eventsPerPage).

Definition handlePrevious (prev : Z) : Z := Z.max (prev - 1) 0.

Definition handleNext (sortedEvents : list value) (prev : Z) : Z :=
  Z.min (prev + 1) (totalPages sortedEvents - 1).

(** The [disabled] attributes of the two buttons. *)
Definition previous_disabled (currentPage : Z) : bool := currentPage =? 0.

Definition next_disabled (sortedEvents : list value) (currentPage : Z) : bool :=
  currentPage =? totalPages sortedEvents - 1.

(** A click on a button; a disabled button does not call its handler. *)
Inductive Click := Previous | Next.

Definition click (sortedEvents : list value) (currentPage : Z) (c : Click) : Z :=
  match c with
  | Previous =>
      if previous_disabled currentPage then currentPage
      else handlePrevious currentPage
  | Next =>
      if next_disabled sortedEvents currentPage then currentPage
      else handleNext sortedEvents currentPage
  end.

(** The page shown after a series of clicks, from [useState(0)]. *)
Definition page_after (sortedEvents : list value) (clicks : list Click) : Z :=
  fold_left (click sortedEvents) clicks 0.

End EventTimeline.

Import EventTimeline.

(** The pages from the first to the last, in order. *)
Definition all_pages (sortedEvents : list value) : list (list value) :=
  map (fun page => currentEvents sortedEvents (Z.of_nat page))
      (seq 0 (Z.to_nat (totalPages sortedEvents))).

Definition seven_events : list value :=
  [JNum 1; JNum 2; JNum 3; JNum 4; JNum 5; JNum 6; JNum 7].

(** ** Running the functions *)

Lemma World_eta (w : World) : {| cache := cache w; console := console w; network := network w |} = w.
Proof. by destruct w. Qed.

Lemma logged_nil (w : World) : logged [] w = w.
Proof. unfold logged. rewrite app_nil_r. apply World_eta. Qed.

Lemma api_get_run u c e w :
  api_get u c e w =
    (sent (outgoing e u c) w,
     Awaiting (outgoing e u c) (fun wr e' w' => receive (outgoing e u c) wr e' w')).
Proof.
  unfold api_get, request_interceptor, bind, localStorage_getItem,
    Date_toISOString, transport, ret, outgoing.
  cbn [then_].
  destruct (localStorage e !! "auth_token") as [t|];
    [destruct (truthy (JStr t))|]; reflexivity.
Qed.

Lemma response_rejected_run err e w :
  response_rejected err e w = (logged (diagnostic err) w, Rejected (normalized err)).
Proof.
  unfold response_rejected, diagnostic, bind, reject, console_error, ret.
  assert (Hobj : forall m st d,
    object [("success", JBool false); ("message", m); ("status", st); ("data", d)]
    = JObj [("success", JBool false); ("message", m); ("status", st); ("data", d)])
    by reflexivity.
  rewrite Hobj. fold (normalized err).
  destruct (Axios.response err) as [r|];
    repeat match goal with
      | |- context [if ?b then _ else _] => destruct b
      end; cbn [then_]; try reflexivity.
  by rewrite logged_nil.
Qed.

Lemma receive_run req wr e w :
  receive req wr e w =
    match Axios.settle req wr with
    | inl r => (w, Fulfilled (Axios.data r))
    | inr err => (logged (diagnostic err) w, Rejected (normalized err))
    end.
Proof.
  unfold receive. destruct (Axios.settle req wr); [reflexivity|].
  apply response_rejected_run.
Qed.

Lemma getFromCache_run key e w :
  getFromCache key e w =
    match cache w !! key with
    | Some c => if live c (now e) then (w, Fulfilled (data c))
                else (evict key w, Fulfilled JNull)
    | None => (evict key w, Fulfilled JNull)
    end.
Proof.
  unfold getFromCache, bind, cache_get, Date_now, cache_delete, ret, live.
  cbn [then_]. destruct (cache w !! key) as [c|]; cbn [then_]; [|reflexivity].
  by destruct (now e - timestamp c <? CACHE_DURATION).
Qed.

Lemma resume_cached_run key req wr e w :
  resume_cached key req wr e w =
    match Axios.settle req wr with
    | inl r => (stored key (Axios.data r) (now e) w, Fulfilled (Axios.data r))
    | inr err => (logged (diagnostic err) w, Rejected (normalized err))
    end.
Proof.
  unfold resume_cached. rewrite receive_run.
  by destruct (Axios.settle req wr).
Qed.

Lemma resume_direct_run req wr e w :
  resume_direct req wr e w =
    match Axios.settle req wr with
    | inl r => (w, Fulfilled (Axios.data r))
    | inr err => (logged (diagnostic err) w, Rejected (normalized err))
    end.
Proof.
  unfold resume_direct. rewrite receive_run.
  by destruct (Axios.settle req wr).
Qed.

Lemma direct_get_run u c e w :
  direct_get u c e w =
    (sent (outgoing e u c) w, Awaiting (outgoing e u c) (resume_direct (outgoing e u c))).
Proof. unfold direct_get, bind. by rewrite api_get_run. Qed.

Lemma cached_get_miss u p c e w' :
  (let (w'', s) := api_get u c e w' in
   then_ s (fun response => setToCache (getCacheKey u p) response ;;; ret response) e w'')
  = (sent (outgoing e u c) w',
     Awaiting (outgoing e u c) (resume_cached (getCacheKey u p) (outgoing e u c))).
Proof. by rewrite api_get_run. Qed.

Lemma cached_get_run u p c e w :
  cached_get u p c e w =
    let key := getCacheKey u p in
    let req := outgoing e u c in
    match cache w !! key with
    | Some entry =>
        if live entry (now e)
        then if truthy (data entry) then (w, Fulfilled (data entry))
             else (sent req w, Awaiting req (resume_cached key req))
        else (sent req (evict key w), Awaiting req (resume_cached key req))
    | None => (sent req (evict key w), Awaiting req (resume_cached key req))
    end.
Proof.
  unfold cached_get. cbn zeta. unfold bind at 1. rewrite getFromCache_run.
  destruct (cache w !! getCacheKey u p) as [entry|].
  - destruct (live entry (now e)); cbn [then_].
    + destruct (truthy (data entry)); [reflexivity|]. apply cached_get_miss.
    + apply cached_get_miss.
  - cbn [then_]. apply cached_get_miss.
Qed.

Lemma invoke_cached c k :
  key_of c = Some k ->
  invoke c = cached_get (url_of c) (match c with
                                    | FetchPrices p | FetchEvents p => default_arg p (object [])
                                    | _ => JUndefined
                                    end) (config_of c)
  /\ k = getCacheKey (url_of c) (match c with
                                 | FetchPrices p | FetchEvents p => default_arg p (object [])
                                 | _ => JUndefined
                                 end).
Proof. destruct c; intros [= <-]; split; reflexivity. Qed.

Lemma invoke_direct c :
  key_of c = None -> invoke c = direct_get (url_of c) (config_of c).
Proof. destruct c; intros [=]; reflexivity. Qed.

(** The first segment of any call, by the cache key it works under. *)
Lemma invoke_run c e w :
  invoke c e w =
    let req := outgoing e (url_of c) (config_of c) in
    let wait w' := (sent req w', Awaiting req (resume_of c req)) in
    match key_of c with
    | Some k =>
        match cache w !! k with
        | Some entry =>
            if live entry (now e)
            then if truthy (data entry) then (w, Fulfilled (data entry)) else wait w
            else wait (evict k w)
        | None => wait (evict k w)
        end
    | None => wait w
    end.
Proof.
  unfold resume_of. destruct (key_of c) as [k|] eqn:Hk.
  - destruct (invoke_cached c k Hk) as [-> ->]. apply cached_get_run.
  - rewrite (invoke_direct c Hk). apply direct_get_run.
Qed.

(** The later segment of a waiting call. *)
Lemma resume_of_run c req wr e w :
  resume_of c req wr e w =
    match Axios.settle req wr with
    | inl r =>
        (match key_of c with
         | Some k => stored k (Axios.data r) (now e) w
         | None => w
         end, Fulfilled (Axios.data r))
    | inr err => (logged (diagnostic err) w, Rejected (normalized err))
    end.
Proof.
  unfold resume_of. destruct (key_of c).
  - apply resume_cached_run.
  - apply resume_direct_run.
Qed.

Lemma System_eta s : {| world := world s; pending := pending s |} = s.
Proof. by destruct s. Qed.

Lemma task_of_issued c e : issued (task_of c e).
Proof. exists e. split; reflexivity. Qed.

(** An invocation either returns from the cache and leaves everything
    as it is, or sends its request and joins the waiting calls. *)
Lemma step_invoke s c e :
  step s (Invoke c e) =
    let wait w' := ({| world := sent (request (task_of c e)) w';
                       pending := pending s ++ [task_of c e] |}, Waiting c) in
    match key_of c with
    | Some k =>
        match cache (world s) !! k with
        | Some entry =>
            if live entry (now e)
            then if truthy (data entry) then (s, Returned c (data entry))
                 else wait (world s)
            else wait (evict k (world s))
        | None => wait (evict k (world s))
        end
    | None => wait (world s)
    end.
Proof.
  cbn [step]. rewrite invoke_run. cbn zeta.
  destruct (key_of c) as [k|]; [|reflexivity].
  destruct (cache (world s) !! k) as [entry|]; [|reflexivity].
  destruct (live entry (now e)); [|reflexivity].
  destruct (truthy (data entry)); [|reflexivity].
  cbn [conclude]. by rewrite System_eta.
Qed.

Lemma step_deliver s i wr e t :
  pending s !! i = Some t ->
  issued t ->
  step s (Deliver i wr e) =
    match Axios.settle (request t) wr with
    | inl r =>
        ({| world := match key_of (caller t) with
                     | Some k => stored k (Axios.data r) (now e) (world s)
                     | None => world s
                     end;
            pending := delete i (pending s) |},
         Returned (caller t) (Axios.data r))
    | inr err =>
        ({| world := logged (diagnostic err) (world s);
            pending := delete i (pending s) |},
         Threw (caller t) (normalized err))
    end.
Proof.
  intros Ht (e0 & _ & Hres). cbn [step]. rewrite Ht, Hres, resume_of_run.
  by destruct (Axios.settle (request t) wr).
Qed.

Lemma step_deliver_none s i wr e :
  pending s !! i = None -> step s (Deliver i wr e) = (s, Quiet).
Proof. intros H. cbn [step]. by rewrite H. Qed.

Lemma step_clear s e :
  step s (ClearCache e) =
    ({| world := {| cache := ∅; console := console (world s);
                    network := network (world s) |};
        pending := pending s |}, Quiet).
Proof. reflexivity. Qed.

(** Every waiting call of a reachable system was left by an invocation
    of its function. *)
Lemma step_well_formed s ev : well_formed s -> well_formed (step s ev).1.
Proof.
  unfold well_formed. intros Hwf. destruct ev as [c e|i wr e|e].
  - rewrite step_invoke. cbn zeta.
    assert (Hadd : Forall issued (pending s ++ [task_of c e])).
    { apply Forall_app. split; [done|]. constructor; [apply task_of_issued|constructor]. }
    repeat case_match; done.
  - destruct (pending s !! i) as [t|] eqn:Ht.
    + assert (Hi : issued t) by (eapply Forall_lookup_1; eauto).
      rewrite (step_deliver s i wr e t Ht Hi).
      assert (Hdel : Forall issued (delete i (pending s)))
        by by apply Forall_delete.
      by destruct (Axios.settle (request t) wr).
    + by rewrite step_deliver_none.
  - done.
Qed.

Lemma exec_snoc s evs ev : exec s (evs ++ [ev]) = (step (exec s evs) ev).1.
Proof. unfold exec. by rewrite fold_left_app. Qed.

Lemma exec_well_formed s evs : well_formed s -> well_formed (exec s evs).
Proof.
  intros Hwf. induction evs as [|ev evs IH] using rev_ind; [done|].
  rewrite exec_snoc. by apply step_well_formed.
Qed.

Lemma reachable_well_formed s : reachable s -> well_formed s.
Proof.
  intros [evs <-]. apply exec_well_formed. constructor.
Qed.

Lemma reachable_step s ev : reachable s -> reachable (step s ev).1.
Proof. intros [evs <-]. exists (evs ++ [ev])%list. apply exec_snoc. Qed.

Lemma reachable_exec s evs : reachable s -> reachable (exec s evs).
Proof.
  intros [evs0 <-]. exists (evs0 ++ evs)%list. unfold exec. by rewrite fold_left_app.
Qed.

(** ** What the transport is asked and what it answers *)

Lemma outgoing_timeout e u c : Axios.timeout (outgoing e u c) = 30000.
Proof. unfold outgoing. by repeat case_match. Qed.


Lemma outgoing_url e u c : Axios.url (outgoing e u c) = u.
Proof. unfold outgoing. by repeat case_match. Qed.

Lemma issued_timeout t : issued t -> Axios.timeout (request t) = 30000.
Proof. intros (e & -> & _). apply outgoing_timeout. Qed.

(** A response with a status from 200 to 299 that is there within the
    30 seconds resolves. *)
Lemma settle_resolves req wr r :
  Axios.timeout req = 30000 ->
  Axios.reply wr = Some r -> Axios.elapsed wr <= 30000 ->
  200 <= Axios.status r < 300 ->
  Axios.settle req wr = inl r.
Proof.
  intros Ht Hr He Hs. unfold Axios.settle, Axios.validateStatus. rewrite Ht, Hr.
  replace (30000 <? Axios.elapsed wr) with false by (symmetry; apply Z.ltb_ge; lia).
  replace (200 <=? Axios.status r) with true by (symmetry; apply Z.leb_le; lia).
  replace (Axios.status r <? 300) with true by (symmetry; apply Z.ltb_lt; lia).
  reflexivity.
Qed.

(** Whatever comes after 30 seconds comes too late. *)
Lemma settle_times_out req wr :
  Axios.timeout req = 30000 -> 30000 < Axios.elapsed wr ->
  Axios.settle req wr = inr timeout_error.
Proof.
  intros Ht He. unfold Axios.settle. rewrite Ht.
  replace (30000 <? Axios.elapsed wr) with true by (symmetry; apply Z.ltb_lt; lia).
  reflexivity.
Qed.

(** A rejection of the transport carries a response exactly when a
    response with a status outside 200 to 299 arrived in time, and its
    message is never empty. *)
Lemma settle_rejects req wr err :
  Axios.settle req wr = inr err ->
  Axios.message err <> EmptyString
  /\ match Axios.response err with
     | Some r => Axios.reply wr = Some r
                 /\ ~ (200 <= Axios.status r < 300)
     | None => True
     end.
Proof.
  unfold Axios.settle, Axios.validateStatus.
  destruct (_ && _) eqn:Hto; [intros [= <-]; by split|].
  destruct (Axios.reply wr) as [r|]; [|intros [= <-]; by split].
  destruct ((200 <=? Axios.status r) && (Axios.status r <? 300)) eqn:Hv; [done|].
  intros [= <-]. split; [done|]. cbn. split; [done|].
  intros [H1 H2]. apply andb_false_iff in Hv as [Hv|Hv].
  - apply Z.leb_gt in Hv. lia.
  - apply Z.ltb_ge in Hv. lia.
Qed.

Lemma truthy_string m : truthy (JStr m) = true <-> m <> EmptyString.
Proof.
  cbn. destruct (String.eqb_spec m EmptyString); split; intros; try done.
Qed.

(** ** A concrete session *)

Lemma first_call_waits c e :
  exec boot [Invoke c e] =
    {| world := sent (request (task_of c e))
                  (match key_of c with
                   | Some k => evict k (world boot)
                   | None => world boot
                   end);
       pending := [task_of c e] |}.
Proof.
  unfold exec. cbn [fold_left]. rewrite step_invoke. cbn zeta.
  destruct (key_of c) as [k|]; [|reflexivity].
  unfold boot at 1. cbn [world cache]. by rewrite lookup_empty.
Qed.

Lemma metrics_requested_pending :
  pending metrics_requested = [task_of FetchMetrics (at_time 0)].
Proof. unfold metrics_requested. by rewrite first_call_waits. Qed.

(** ** C2: a 2xx response whose body says [success: false] *)

(** C2, counterexample: [fetchMetrics] waits, the server answers 200
    with the body [{success: false, message: 'no data'}], and the call
    resolves with that body. *)
Lemma unsuccessful_body_resolves : ~ unsuccessful_body_rejects.
Proof.
  intros H.
  destruct (H metrics_requested 0%nat (answer 120 200 no_data) (at_time 120)
              {| Axios.status := 200; Axios.data := no_data |})
    as (c & reason & Hthrew).
  - by exists [Invoke FetchMetrics (at_time 0)].
  - rewrite metrics_requested_pending. eexists. reflexivity.
  - reflexivity.
  - cbn. lia.
  - cbn. lia.
  - reflexivity.
  - assert (Hout : (step metrics_requested
                      (Deliver 0 (answer 120 200 no_data) (at_time 120))).2
                   = Returned FetchMetrics no_data) by (vm_compute; reflexivity).
    rewrite Hout in Hthrew. discriminate Hthrew.
Qed.

(** C2, amended: a response with a status from 200 to 299 that arrives
    within the 30 seconds resolves the waiting call with the response
    body as it is, whatever its [success] property says; a caching
    function stores that body under its key. *)
Theorem body_of_2xx_is_returned s i t wr e r :
  reachable s -> pending s !! i = Some t ->
  Axios.reply wr = Some r -> Axios.elapsed wr <= 30000 ->
  200 <= Axios.status r < 300 ->
  step s (Deliver i wr e) =
    ({| world := match key_of (caller t) with
                 | Some k => stored k (Axios.data r) (now e) (world s)
                 | None => world s
                 end;
        pending := delete i (pending s) |},
     Returned (caller t) (Axios.data r)).
Proof.
  intros Hs Ht Hr He Hst.
  assert (Hi : issued t).
  { eapply Forall_lookup_1; [apply reachable_well_formed, Hs|apply Ht]. }
  rewrite (step_deliver s i wr e t Ht Hi).
  by rewrite (settle_resolves _ wr r (issued_timeout t Hi) Hr He Hst).
Qed.

(** C2 on the session: the body [{success: false, message: 'no data'}]
    arrives with status 200 and [fetchMetrics] resolves with it. *)
Lemma body_of_2xx_is_returned_witness :
  (step metrics_requested (Deliver 0 (answer 120 200 no_data) (at_time 120))).2
  = Returned FetchMetrics no_data.
Proof.
  rewrite (body_of_2xx_is_returned metrics_requested 0
             (task_of FetchMetrics (at_time 0)) (answer 120 200 no_data) (at_time 120)
             {| Axios.status := 200; Axios.data := no_data |}).
  - reflexivity.
  - by exists [Invoke FetchMetrics (at_time 0)].
  - by rewrite metrics_requested_pending.
  - reflexivity.
  - cbn. lia.
  - cbn. lia.
Defined.

(** ** C4: every failure rejects with the normalized error *)

Lemma settle_fails req wr :
  Axios.timeout req = 30000 -> fails wr ->
  exists err,
    Axios.settle req wr = inr err
    /\ Axios.response err = received wr
    /\ Axios.message err <> EmptyString.
Proof.
  intros Ht Hf. unfold received.
  destruct (30000 <? Axios.elapsed wr) eqn:Hlate.
  - apply Z.ltb_lt in Hlate. exists timeout_error.
    by rewrite settle_times_out.
  - apply Z.ltb_ge in Hlate.
    destruct (Axios.settle req wr) as [r|err] eqn:Hs.
    + exfalso. revert Hs. unfold Axios.settle, Axios.validateStatus.
      rewrite Ht. replace (30000 <? Axios.elapsed wr) with false
        by (symmetry; apply Z.ltb_ge; lia).
      rewrite andb_false_r. destruct Hf as [Hf|[Hf|(r' & Hr' & Hbad)]]; [lia|by rewrite Hf|].
      rewrite Hr'. destruct (_ && _) eqn:Hv; [|done].
      intros _. apply Hbad. apply andb_true_iff in Hv as [H1 H2].
      apply Z.leb_le in H1. apply Z.ltb_lt in H2. lia.
    + exists err. destruct (settle_rejects req wr err Hs) as [Hm Hr].
      split; [done|]. split; [|done].
      revert Hs. unfold Axios.settle. rewrite Ht.
      replace (30000 <? Axios.elapsed wr) with false
        by (symmetry; apply Z.ltb_ge; lia).
      rewrite andb_false_r. destruct (Axios.reply wr) as [r'|]; [|by intros [= <-]].
      destruct (Axios.validateStatus _); [done|]. by intros [= <-].
Qed.

(** C4, counterexample: [fetchMetrics] waits and the server answers 500
    with the body [{message: 42}]; the rejection value has the number 42
    as its [message], not a string. *)
Lemma message_can_be_a_number : ~ failures_carry_a_text_message.
Proof.
  intros H.
  destruct (H metrics_requested 0%nat (task_of FetchMetrics (at_time 0))
              (answer 80 500 number_for_message) (at_time 80))
    as (reason & Hthrew & _ & (m & Hm & _) & _).
  - by exists [Invoke FetchMetrics (at_time 0)].
  - by rewrite metrics_requested_pending.
  - right. right. eexists. split; [reflexivity|]. cbn. lia.
  - assert (Hout : (step metrics_requested
                      (Deliver 0 (answer 80 500 number_for_message) (at_time 80))).2
                   = Threw FetchMetrics
                       (JObj [("success", JBool false); ("message", JNum 42);
                              ("status", JNum 500); ("data", number_for_message)]))
      by (vm_compute; reflexivity).
    rewrite Hout in Hthrew. injection Hthrew as <-. discriminate Hm.
Qed.

(** C4, amended: every failing request (the 30 seconds pass, the
    connection fails, or the status is outside 200 to 299) makes the call
    reject with the object [{success: false, message, status, data}]:
    [status] is the HTTP status of the response received, undefined when
    there is none; [data] is the response body, undefined likewise;
    [message] is the body's [message] property when that is truthy, else
    the transport's own message, which is not empty.  So [message] is a
    non-empty string whenever the body's [message] property is falsy,
    missing or a string. *)
Theorem failures_reject_normalized s i t wr e :
  reachable s -> pending s !! i = Some t -> fails wr ->
  exists reason transport_message,
    (step s (Deliver i wr e)).2 = Threw (caller t) reason
    /\ transport_message <> EmptyString
    /\ reason = JObj [("success", JBool false);
                      ("message", or_else (opt_get (failure_body wr) "message")
                                          (JStr transport_message));
                      ("status", failure_status wr);
                      ("data", failure_body wr)]
    /\ (truthy (opt_get (failure_body wr) "message") = false
        \/ (exists m, opt_get (failure_body wr) "message" = JStr m) ->
        exists m, get reason "message" = JStr m /\ m <> EmptyString).
Proof.
  intros Hs Ht Hf.
  assert (Hi : issued t).
  { eapply Forall_lookup_1; [apply reachable_well_formed, Hs|apply Ht]. }
  destruct (settle_fails (request t) wr (issued_timeout t Hi) Hf)
    as (err & Hsettle & Hresp & Hmsg).
  exists (normalized err), (Axios.message err).
  rewrite (step_deliver s i wr e t Ht Hi), Hsettle. cbn [snd].
  assert (Hbody : response_data err = failure_body wr).
  { unfold response_data, failure_body. by rewrite Hresp. }
  assert (Hstatus : response_status err = failure_status wr).
  { unfold response_status, failure_status. by rewrite Hresp. }
  split; [reflexivity|]. split; [done|].
  assert (Hnorm : normalized err =
    JObj [("success", JBool false);
          ("message", or_else (opt_get (failure_body wr) "message")
                              (JStr (Axios.message err)));
          ("status", failure_status wr);
          ("data", failure_body wr)]).
  { unfold normalized. by rewrite Hbody, Hstatus. }
  split; [done|].
  intros Hcase. rewrite Hnorm.
  change (get (JObj ?l) "message") with (lookup_prop "message" l).
  cbn [lookup_prop String.eqb Ascii.eqb Bool.eqb].
  unfold or_else. destruct Hcase as [Hfalsy|[m Hm]].
  - rewrite Hfalsy. by exists (Axios.message err).
  - rewrite Hm. destruct (truthy (JStr m)) eqn:Htr.
    + exists m. split; [done|]. by apply truthy_string.
    + by exists (Axios.message err).
Qed.

Lemma impact_requested_pending :
  pending impact_requested = [task_of (FetchEventImpact (JStr "unknown")) (at_time 0)].
Proof. unfold impact_requested. by rewrite first_call_waits. Qed.

(** C4 on the session: the 404 answer makes [fetchEventImpact] reject
    with [success] false, [status] 404 and a non-empty text as
    [message]. *)
Lemma failures_reject_normalized_witness :
  exists reason,
    (step impact_requested (Deliver 0 not_found (at_time 35))).2
    = Threw (FetchEventImpact (JStr "unknown")) reason
    /\ get reason "success" = JBool false
    /\ get reason "status" = JNum 404
    /\ exists m, get reason "message" = JStr m /\ m <> EmptyString.
Proof.
  destruct (failures_reject_normalized impact_requested 0
              (task_of (FetchEventImpact (JStr "unknown")) (at_time 0))
              not_found (at_time 35))
    as (reason & tm & Hout & Htm & Hreason & Hmsg).
  - by exists [Invoke (FetchEventImpact (JStr "unknown")) (at_time 0)].
  - by rewrite impact_requested_pending.
  - right. right. eexists. split; [reflexivity|]. cbn. lia.
  - exists reason. split; [exact Hout|].
    split; [by rewrite Hreason|].
    split; [by rewrite Hreason|].
    apply Hmsg. left. reflexivity.
Defined.

(** ** C6: a response that takes longer than 30 seconds *)

(** C6: when the network takes longer than the 30 seconds, the waiting
    call rejects, whatever arrives later: the error interceptor writes
    the timeout diagnostic (not the one of an unclassified API error)
    and the caller gets the normalized error object, with the
    transport's timeout message and no status. *)
Theorem late_response_rejects_as_timeout s i t wr e :
  reachable s -> pending s !! i = Some t ->
  30000 < Axios.elapsed wr ->
  step s (Deliver i wr e) =
    ({| world := logged [["Request timeout"]] (world s);
        pending := delete i (pending s) |},
     Threw (caller t)
       (JObj [("success", JBool false);
              ("message", JStr "timeout of 30000ms exceeded");
              ("status", JUndefined);
              ("data", JUndefined)])).
Proof.
  intros Hs Ht Hlate.
  assert (Hi : issued t).
  { eapply Forall_lookup_1; [apply reachable_well_formed, Hs|apply Ht]. }
  rewrite (step_deliver s i wr e t Ht Hi).
  by rewrite (settle_times_out _ wr (issued_timeout t Hi) Hlate).
Qed.

(** C6 on the session: an answer after 30001 milliseconds. *)
Lemma late_response_rejects_as_timeout_witness :
  (step metrics_requested (Deliver 0 (answer 30001 200 no_data) (at_time 30001))).2
  = Threw FetchMetrics
      (JObj [("success", JBool false);
             ("message", JStr "timeout of 30000ms exceeded");
             ("status", JUndefined);
             ("data", JUndefined)]).
Proof.
  rewrite (late_response_rejects_as_timeout metrics_requested 0
             (task_of FetchMetrics (at_time 0))).
  - reflexivity.
  - by exists [Invoke FetchMetrics (at_time 0)].
  - by rewrite metrics_requested_pending.
  - cbn. lia.
Defined.

(** ** C7: the export functions and the cache *)





(** ** C8: the headers of an outgoing request *)


Lemma outgoing_authorization e u c t :
  localStorage e !! "auth_token" = Some t -> t <> EmptyString ->
  Axios.headers (outgoing e u c) !! "Authorization" = Some ("Bearer " +:+ t).
Proof.
  intros Ht Hne. unfold outgoing. rewrite Ht.
  apply truthy_string in Hne. rewrite Hne.
  cbn [Axios.set_header Axios.headers].
  rewrite lookup_insert_ne by done. apply lookup_insert_eq.
Qed.

Lemma outgoing_anonymous e u c :
  localStorage e !! "auth_token" = None ->
  Axios.headers (outgoing e u c) !! "Authorization" = None.
Proof.
  intros Ht. unfold outgoing. rewrite Ht.
  cbn [Axios.set_header Axios.headers Axios.merge api Axios.default_headers].
  by rewrite !lookup_insert_ne, lookup_empty by done.
Qed.









(** ** C10: [batchRequests] *)

Lemma allSettled_never_rejects requests r : Promise_allSettled requests <> Rejects r.
Proof.
  induction requests as [|p rest IH]; [done|]. cbn [Promise_allSettled].
  destruct p, (Promise_allSettled rest); done.
Qed.

Lemma allSettled_fulfils requests :
  Forall settles requests ->
  Promise_allSettled requests = Fulfils (map report requests).
Proof.
  induction 1 as [|p rest Hp _ IH]; [done|]. cbn [Promise_allSettled map].
  rewrite IH. by destruct p.
Qed.

Lemma allSettled_pends requests :
  Exists (fun p => p = Pends) requests -> Promise_allSettled requests = Pends.
Proof.
  induction 1 as [p rest ->|p rest _ IH]; [done|].
  cbn [Promise_allSettled]. rewrite IH. by destruct p.
Qed.

(** C10: [batchRequests] never rejects, and once every input promise
    has settled it fulfils with one element per input, in input order:
    for a fulfilled input the status ['fulfilled'], its value as [data]
    and [null] as [error]; for a rejected input the status ['rejected']
    and its reason as both [data] and [error]. *)
Theorem batchRequests_reports_every_input requests :
  (forall r, batchRequests requests <> Rejects r)
  /\ (Forall settles requests ->
      exists items,
        batchRequests requests = Fulfils items
        /\ length items = length requests
        /\ forall i,
             (forall v, requests !! i = Some (Fulfils v) ->
                items !! i = Some {| Batch.request := Some (Fulfils v);
                                     Batch.item_status := "fulfilled";
                                     Batch.data := v;
                                     Batch.error := JNull |})
             /\ (forall r, requests !! i = Some (Rejects r) ->
                   items !! i = Some {| Batch.request := Some (Rejects r);
                                        Batch.item_status := "rejected";
                                        Batch.data := r;
                                        Batch.error := r |})).
Proof.
  split.
  - intros r. unfold batchRequests.
    pose proof (allSettled_never_rejects requests) as Hnever.
    destruct (Promise_allSettled requests); cbn; [done| |done].
    intros [= ->]. by eapply Hnever.
  - intros Hall. unfold batchRequests. rewrite (allSettled_fulfils _ Hall).
    cbn [await_then]. eexists. split; [reflexivity|].
    split; [by rewrite length_imap, length_map|].
    intros i. split.
    + intros v Hi. rewrite list_lookup_imap, list_lookup_fmap, Hi. reflexivity.
    + intros r Hi. rewrite list_lookup_imap, list_lookup_fmap, Hi. reflexivity.
Qed.

(** C10 on two settled promises, one fulfilled and one rejected. *)
Lemma batchRequests_reports_every_input_witness :
  batchRequests [Fulfils (JNum 1); Rejects (JStr "down")] =
    Fulfils [{| Batch.request := Some (Fulfils (JNum 1));
                Batch.item_status := "fulfilled";
                Batch.data := JNum 1; Batch.error := JNull |};
             {| Batch.request := Some (Rejects (JStr "down"));
                Batch.item_status := "rejected";
                Batch.data := JStr "down"; Batch.error := JStr "down" |}].
Proof.
  destruct (batchRequests_reports_every_input [Fulfils (JNum 1); Rejects (JStr "down")])
    as [_ H].
  destruct H as (items & -> & Hlen & Hitems).
  - repeat constructor; discriminate.
  - f_equal.
    destruct (Hitems 0%nat) as [H0 _]. specialize (H0 (JNum 1) eq_refl).
    destruct (Hitems 1%nat) as [_ H1]. specialize (H1 (JStr "down") eq_refl).
    destruct items as [|a [|b [|? ?]]]; try discriminate Hlen.
    cbn in H0, H1. by injection H0 as ->; injection H1 as ->.
Defined.

(** ** C5: [clearCache] *)

(** A key that is not in the cache stays out of it as long as no
    response is delivered to a call that works under it. *)
Lemma absent_survives s ev k :
  well_formed s ->
  cache (world s) !! k = None ->
  unanswered_by k s ev ->
  cache (world (step s ev).1) !! k = None.
Proof.
  intros Hwf Habsent Hev. destruct ev as [c e|i wr e|e].
  - rewrite step_invoke. cbn zeta.
    repeat case_match; try done; cbn [fst world sent evict cache];
      by apply lookup_delete_None; right.
  - destruct (pending s !! i) as [t|] eqn:Ht; [|by rewrite step_deliver_none].
    assert (Hi : issued t) by (eapply Forall_lookup_1; eauto).
    rewrite (step_deliver s i wr e t Ht Hi). specialize (Hev t Ht).
    destruct (Axios.settle (request t) wr); [|done].
    destruct (key_of (caller t)) as [k'|]; [|done].
    cbn [fst world stored cache]. rewrite lookup_insert_ne; [done|congruence].
  - apply lookup_empty.
Qed.

Lemma absent_survives_all evs : forall s k,
  well_formed s ->
  cache (world s) !! k = None ->
  unanswered k s evs ->
  cache (world (exec s evs)) !! k = None.
Proof.
  induction evs as [|ev evs IH]; intros s k Hwf Habsent Hun; [done|].
  destruct Hun as [Hev Hun].
  apply (IH (step s ev).1 k); [by apply step_well_formed| |done].
  by apply absent_survives.
Qed.

(** A call that finds nothing under its key sends its request. *)
Lemma invoke_on_miss s c e :
  (forall k, key_of c = Some k -> cache (world s) !! k = None) ->
  (step s (Invoke c e)).2 = Waiting c
  /\ network (world (step s (Invoke c e)).1)
     = (network (world s) ++ [outgoing e (url_of c) (config_of c)])%list.
Proof.
  intros Hmiss. rewrite step_invoke. cbn zeta.
  destruct (key_of c) as [k|]; [rewrite (Hmiss k eq_refl)|]; by split.
Qed.

Lemma one_of_two_answered_run :
  one_of_two_answered =
    {| world := stored "/metrics:" (object [("success", JBool true)]) 50
                  (sent (request (task_of FetchMetrics (at_time 10)))
                     (evict "/metrics:" (world (exec boot [Invoke FetchMetrics (at_time 0)]))));
       pending := [task_of FetchMetrics (at_time 10)] |}.
Proof.
  unfold one_of_two_answered.
  change (exec boot (?a :: ?b :: ?c :: [])) with
    (step (step (exec boot [a]) b).1 c).1.
  rewrite first_call_waits, step_invoke. cbn zeta.
  change (key_of FetchMetrics) with (Some "/metrics:").
  cbn [world evict sent cache].
  rewrite lookup_delete_eq. cbn [fst pending app].
  rewrite (step_deliver _ 0 _ _ (task_of FetchMetrics (at_time 0)));
    [|reflexivity|apply task_of_issued].
  rewrite (settle_resolves _ _ {| Axios.status := 200;
                                  Axios.data := object [("success", JBool true)] |});
    [reflexivity|apply outgoing_timeout|reflexivity|cbn; lia|cbn; lia].
Qed.

(** C5, counterexample: two calls of [fetchMetrics] are in flight; the
    first is answered and its response cached; [clearCache] runs; the
    second is answered and its response cached; the next call of
    [fetchMetrics], the first one made since [clearCache], is served from
    the cache. *)
Lemma cleared_key_is_filled_again : ~ first_call_after_clear_is_fetched.
Proof.
  intros H.
  specialize (H one_of_two_answered (at_time 60)
                [Deliver 0 (answer 60 200 (object [("success", JBool true)])) (at_time 70)]
                FetchMetrics "/metrics:" (at_time 80)).
  assert (Hout : (step (exec (step one_of_two_answered (ClearCache (at_time 60))).1
                          [Deliver 0 (answer 60 200 (object [("success", JBool true)]))
                                   (at_time 70)])
                       (Invoke FetchMetrics (at_time 80))).2
                 = Returned FetchMetrics (object [("success", JBool true)])).
  { rewrite one_of_two_answered_run, step_clear.
    unfold exec. cbn [fold_left world pending stored sent console network].
    rewrite (step_deliver _ 0 _ _ (task_of FetchMetrics (at_time 10)));
      [|reflexivity|apply task_of_issued].
    rewrite (settle_resolves _ _ {| Axios.status := 200;
                                    Axios.data := object [("success", JBool true)] |});
      [|apply outgoing_timeout|reflexivity|cbn; lia|cbn; lia].
    cbn [fst]. rewrite step_invoke. cbn zeta.
    change (key_of FetchMetrics) with (Some "/metrics:").
    change (key_of (caller (task_of FetchMetrics (at_time 10)))) with (Some "/metrics:").
    cbn [world stored cache]. rewrite lookup_insert_eq. reflexivity. }
  rewrite Hout in H. discriminate H.
  - by exists [Invoke FetchMetrics (at_time 0); Invoke FetchMetrics (at_time 10);
               Deliver 0 (answer 50 200 (object [("success", JBool true)])) (at_time 50)].
  - reflexivity.
  - rewrite one_of_two_answered_run. cbn [world stored cache].
    rewrite lookup_insert_eq. by eexists.
  - repeat constructor.
Qed.

(** C5, amended: [clearCache] empties the cache, whatever it held; and
    the first call made afterwards for a key, with any argument and
    after any other events, is not served from the cache but sends its
    request, provided no response has been delivered in between to a call
    for that key that was waiting. *)
Theorem clearCache_forces_network s e evs c e' :
  reachable s ->
  (forall k, key_of c = Some k -> unanswered k (step s (ClearCache e)).1 evs) ->
  let cleared := (step s (ClearCache e)).1 in
  let before := exec cleared evs in
  cache (world cleared) = ∅
  /\ (step before (Invoke c e')).2 = Waiting c
  /\ network (world (step before (Invoke c e')).1)
     = (network (world before) ++ [outgoing e' (url_of c) (config_of c)])%list.
Proof.
  intros Hs Hun. cbn zeta. split; [reflexivity|].
  apply invoke_on_miss. intros k Hk.
  apply absent_survives_all; [|apply lookup_empty|by apply Hun].
  apply step_well_formed. by apply reachable_well_formed.
Qed.

(** C5 on the session: the events query is in the cache, [clearCache]
    runs, another function is called, and the same events query goes to
    the network again. *)
Lemma clearCache_forces_network_witness :
  (step (exec (step events_answered (ClearCache (at_time 2000))).1
              [Invoke FetchMetrics (at_time 2500)])
        (Invoke geopolitical (at_time 3000))).2
  = Waiting geopolitical.
Proof.
  apply (clearCache_forces_network events_answered (at_time 2000)
           [Invoke FetchMetrics (at_time 2500)] geopolitical (at_time 3000)).
  - by exists [Invoke geopolitical (at_time 0);
               Deliver 0 (answer 150 200 events_payload) (at_time 150)].
  - intros k _. cbn. by split.
Defined.

(** ** C1 and C9: a second call within the lifetime of the entry *)

Lemma entry_survives s ev k entry limit :
  well_formed s ->
  cache (world s) !! k = Some entry ->
  limit - timestamp entry < CACHE_DURATION ->
  quiet k limit s ev ->
  cache (world (step s ev).1) !! k = Some entry.
Proof.
  intros Hwf Hentry Hlimit Hquiet. destruct ev as [c e|i wr e|e]; [| |done].
  - rewrite step_invoke. cbn zeta. cbn [quiet] in Hquiet.
    destruct (key_of c) as [k'|]; [|done].
    destruct (decide (k' = k)) as [->|Hne].
    + rewrite Hentry. specialize (Hquiet eq_refl).
      replace (live entry (now e)) with true
        by (symmetry; apply Z.ltb_lt; lia).
      by destruct (truthy (data entry)).
    + repeat case_match; try done;
        cbn [fst world sent evict cache]; by rewrite lookup_delete_ne.
  - destruct (pending s !! i) as [t|] eqn:Ht; [|by rewrite step_deliver_none].
    assert (Hi : issued t) by (eapply Forall_lookup_1; eauto).
    rewrite (step_deliver s i wr e t Ht Hi).
    specialize (Hquiet t Ht).
    destruct (Axios.settle (request t) wr); [|done].
    destruct (key_of (caller t)) as [k'|]; [|done].
    cbn [fst world stored cache]. rewrite lookup_insert_ne; [done|congruence].
Qed.

Lemma entry_survives_calm evs : forall s k entry limit,
  well_formed s ->
  cache (world s) !! k = Some entry ->
  limit - timestamp entry < CACHE_DURATION ->
  calm k limit s evs ->
  cache (world (exec s evs)) !! k = Some entry.
Proof.
  induction evs as [|ev evs IH]; intros s k entry limit Hwf Hentry Hlimit Hcalm;
    [done|].
  destruct Hcalm as [Hquiet Hcalm].
  apply (IH (step s ev).1 k entry limit); try done.
  - by apply step_well_formed.
  - by apply entry_survives with limit.
Qed.

(** A live entry with a truthy payload answers the call: the payload is
    returned, nothing is sent, nothing changes. *)
Lemma served_from_entry s c e k entry :
  key_of c = Some k ->
  cache (world s) !! k = Some entry ->
  now e - timestamp entry < CACHE_DURATION ->
  truthy (data entry) = true ->
  step s (Invoke c e) = (s, Returned c (data entry)).
Proof.
  intros Hk Hentry Hlive Htruthy. rewrite step_invoke. cbn zeta.
  rewrite Hk, Hentry, Htruthy.
  by replace (live entry (now e)) with true by (symmetry; apply Z.ltb_lt; lia).
Qed.

(** A live entry with a falsy payload does not answer the call: the
    test [if (cached)] takes it for a miss and the request is sent. *)
Lemma falsy_entry_is_fetched_again s c e k entry :
  key_of c = Some k ->
  cache (world s) !! k = Some entry ->
  now e - timestamp entry < CACHE_DURATION ->
  truthy (data entry) = false ->
  (step s (Invoke c e)).2 = Waiting c.
Proof.
  intros Hk Hentry Hlive Hfalsy. rewrite step_invoke. cbn zeta.
  rewrite Hk, Hentry, Hfalsy.
  by replace (live entry (now e)) with true by (symmetry; apply Z.ltb_lt; lia).
Qed.

(** The response a caching call resolves with is in the cache
    afterwards, stamped with the clock of that segment. *)
Lemma delivery_stores s i t wr e s2 payload k :
  well_formed s -> pending s !! i = Some t -> key_of (caller t) = Some k ->
  step s (Deliver i wr e) = (s2, Returned (caller t) payload) ->
  cache (world s2) !! k = Some {| data := payload; timestamp := now e |}.
Proof.
  intros Hwf Ht Hk.
  assert (Hi : issued t) by (eapply Forall_lookup_1; eauto).
  rewrite (step_deliver s i wr e t Ht Hi), Hk.
  destruct (Axios.settle (request t) wr) as [r|err]; [|done].
  intros [= <- <-]. cbn [world stored cache]. apply lookup_insert_eq.
Qed.

Lemma served_after_delivery s i t wr e2 s2 payload k evs c e3 :
  reachable s -> pending s !! i = Some t -> key_of (caller t) = Some k ->
  step s (Deliver i wr e2) = (s2, Returned (caller t) payload) ->
  truthy payload = true ->
  calm k (now e3) s2 evs ->
  now e3 - now e2 < CACHE_DURATION ->
  key_of c = Some k ->
  step (exec s2 evs) (Invoke c e3) = (exec s2 evs, Returned c payload).
Proof.
  intros Hs Ht Hk Hstep Htruthy Hcalm Hage Hc.
  pose proof (reachable_well_formed s Hs) as Hwf.
  pose proof (delivery_stores s i t wr e2 s2 payload k Hwf Ht Hk Hstep) as Hentry.
  assert (Hwf2 : well_formed s2).
  { replace s2 with (step s (Deliver i wr e2)).1 by by rewrite Hstep.
    by apply step_well_formed. }
  pose proof (entry_survives_calm evs s2 k _ (now e3) Hwf2 Hentry Hage Hcalm) as Hkept.
  by apply (served_from_entry _ c e3 k _ Hc Hkept).
Qed.

(** C1, counterexample: [fetchDashboardConfig] resolves with a payload
    and is called again one second later; the second call is not
    answered from a cache but waits for a second request. *)
Lemma config_is_fetched_again : ~ forall c, second_call_served_from_cache c.
Proof.
  intros H.
  assert (Hfirst : step config_requested (Deliver 0 (answer 40 200 some_config) (at_time 40))
                   = ({| world := (world config_requested); pending := [] |},
                      Returned FetchDashboardConfig some_config)).
  { unfold config_requested. rewrite first_call_waits.
    rewrite (step_deliver _ 0 _ _ (task_of FetchDashboardConfig (at_time 0)));
      [|reflexivity|apply task_of_issued].
    rewrite (settle_resolves _ _ {| Axios.status := 200; Axios.data := some_config |});
      [reflexivity|apply outgoing_timeout|reflexivity|cbn; lia|cbn; lia]. }
  assert (Hagain : step (exec {| world := world config_requested; pending := [] |} [])
                     (Invoke FetchDashboardConfig (at_time 1040))
                   = (exec {| world := world config_requested; pending := [] |} [],
                      Returned FetchDashboardConfig some_config)).
  { apply (H FetchDashboardConfig config_requested 0%nat
             (task_of FetchDashboardConfig (at_time 0))
             (answer 40 200 some_config) (at_time 40)).
    - by exists [Invoke FetchDashboardConfig (at_time 0)].
    - unfold config_requested. by rewrite first_call_waits.
    - reflexivity.
    - exact Hfirst.
    - constructor.
    - unfold CACHE_DURATION. cbn. lia. }
  apply (f_equal snd) in Hagain. rewrite step_invoke in Hagain. discriminate Hagain.
Qed.

(** C1, amended: for each of the functions that use the cache
    ([healthCheck], [fetchPrices], [fetchEvents], [fetchChangePoints],
    [fetchMetrics], [fetchSummaryMetrics], [fetchSeasonality]) and each
    argument: when a call's response resolves it with a truthy payload,
    and the same call is made again at a clock reading less than five
    minutes after that, with nothing in between but events that leave the
    entry alone, then the second call returns the first payload, sends no
    request and changes nothing. *)
Theorem cached_call_served_again c k s i t wr e2 s2 payload evs e3 :
  key_of c = Some k ->
  reachable s -> pending s !! i = Some t -> caller t = c ->
  step s (Deliver i wr e2) = (s2, Returned c payload) ->
  truthy payload = true ->
  calm k (now e3) s2 evs ->
  now e3 - now e2 < CACHE_DURATION ->
  step (exec s2 evs) (Invoke c e3) = (exec s2 evs, Returned c payload).
Proof.
  intros Hk Hs Ht <- Hstep Htruthy Hcalm Hage.
  by apply (served_after_delivery s i t wr e2 s2 payload k evs).
Qed.

(** C1 on the session: the events query is answered and, with a call
    of another function in between, asked again within a second. *)
Lemma cached_call_served_again_witness :
  step (exec events_answered [Invoke FetchMetrics (at_time 300)])
       (Invoke geopolitical (at_time 1000))
  = (exec events_answered [Invoke FetchMetrics (at_time 300)],
     Returned geopolitical events_payload).
Proof.
  apply (cached_call_served_again geopolitical
           (getCacheKey "/events"
              (object [("category", JStr "Geopolitical"); ("min_impact", JStr "High")]))
           (exec boot [Invoke geopolitical (at_time 0)]) 0
           (task_of geopolitical (at_time 0))
           (answer 150 200 events_payload) (at_time 150)).
  - reflexivity.
  - by exists [Invoke geopolitical (at_time 0)].
  - by rewrite first_call_waits.
  - reflexivity.
  - unfold events_answered. rewrite (surjective_pairing (step _ _)) at 1.
    f_equal.
  - reflexivity.
  - cbn. split; [|exact I]. intros _. lia.
  - unfold CACHE_DURATION. cbn. lia.
Defined.

(** ** C9: [fetchMetrics] and [fetchSummaryMetrics] *)

(** The first call made answers at once what the server sends with a
    status from 200 to 299 within the 30 seconds. *)
Lemma first_answer_returns c e ms st body e2 :
  ms <= 30000 -> 200 <= st < 300 ->
  (step (exec boot [Invoke c e]) (Deliver 0 (answer ms st body) e2)).2
  = Returned c body.
Proof.
  intros Hms Hst. rewrite first_call_waits.
  rewrite (step_deliver _ 0 _ e2 (task_of c e)); [|reflexivity|apply task_of_issued].
  by rewrite (settle_resolves _ (answer ms st body)
                {| Axios.status := st; Axios.data := body |}
                (issued_timeout _ (task_of_issued c e)) eq_refl Hms Hst).
Qed.




(** ** C3: the cache key and the order of the parameters *)

(** *** Strings *)

Lemma text_app_cons c (s t : string) : String c s +:+ t = String c (s +:+ t).
Proof. reflexivity. Qed.

Lemma string_tail c (s t : string) : String c s = String c t -> s = t.
Proof. by intros [= ->]. Qed.

Lemma text_app_nil_l (t : string) : EmptyString +:+ t = t.
Proof. reflexivity. Qed.

Lemma text_app_assoc (a b c : string) : (a +:+ b) +:+ c = a +:+ (b +:+ c).
Proof. induction a as [|x a IH]; [done|]. by rewrite !text_app_cons, IH. Qed.

Ltac flatten_app :=
  repeat first [rewrite text_app_assoc | rewrite text_app_cons | rewrite text_app_nil_l].

Lemma text_app_nil_r (a : string) : a +:+ EmptyString = a.
Proof. induction a as [|x a IH]; [done|]. by rewrite text_app_cons, IH. Qed.

(** A word of characters of one class is determined by a text that it
    starts, when the class ends where the word ends. *)
Lemma word_unique p s1 : forall s2 r1 r2,
  all_chars p s1 = true -> all_chars p s2 = true ->
  stops p r1 -> stops p r2 ->
  s1 +:+ r1 = s2 +:+ r2 -> s1 = s2 /\ r1 = r2.
Proof.
  induction s1 as [|c1 s1 IH]; intros [|c2 s2] r1 r2 H1 H2 Hr1 Hr2 Heq;
    rewrite ?text_app_cons, ?text_app_nil_l in Heq; cbn in *.
  - done.
  - subst r1. cbn in Hr1. apply andb_true_iff in H2 as [H2 _]. congruence.
  - subst r2. cbn in Hr2. apply andb_true_iff in H1 as [H1 _]. congruence.
  - injection Heq as -> Heq.
    apply andb_true_iff in H1 as [_ H1]. apply andb_true_iff in H2 as [_ H2].
    destruct (IH s2 r1 r2 H1 H2 Hr1 Hr2 Heq) as [-> ->]. done.
Qed.

(** *** Numbers *)

Lemma string_of_uint_digits d : all_chars number_char (NilEmpty.string_of_uint d) = true.
Proof. induction d; cbn; try done. Qed.

Lemma number_to_string_chars n : all_chars number_char (number_to_string n) = true.
Proof.
  unfold number_to_string, NilZero.string_of_int, NilZero.string_of_uint.
  destruct (Z.to_int n) as [d|d]; destruct d; cbn; try done; apply string_of_uint_digits.
Qed.

Lemma number_to_string_inj n1 n2 :
  number_to_string n1 = number_to_string n2 -> n1 = n2.
Proof.
  unfold number_to_string. intros Heq.
  assert (Hnn : forall n, Z.to_int n <> Decimal.Pos Decimal.Nil
                          /\ Z.to_int n <> Decimal.Neg Decimal.Nil).
  { intros [|p|p]; cbn; split; try done; intros [= H];
      by apply Unsigned.to_uint_nonnil in H. }
  apply to_int_inj.
  assert (H : Some (Z.to_int n1) = Some (Z.to_int n2)).
  { rewrite <- (NilZero.isi (Z.to_int n1)), <- (NilZero.isi (Z.to_int n2)), Heq;
      try apply Hnn. done. }
  by injection H.
Qed.

Lemma number_to_string_head n :
  exists c rest, number_to_string n = String c rest /\ number_char c = true.
Proof.
  pose proof (number_to_string_chars n) as Hall.
  destruct (number_to_string n) as [|c rest] eqn:Hs.
  - exfalso. revert Hs. unfold number_to_string, NilZero.string_of_int,
      NilZero.string_of_uint.
    destruct (Z.to_int n) as [d|d]; destruct d; done.
  - exists c, rest. cbn in Hall. apply andb_true_iff in Hall as [Hc _]. done.
Qed.

(** *** Quoted strings *)

Lemma clash_sound s1 : forall s2 x y, clash s1 s2 = true -> s1 +:+ x <> s2 +:+ y.
Proof.
  induction s1 as [|c1 s1 IH]; intros [|c2 s2] x y; cbn; try done.
  rewrite !text_app_cons. intros Hc [= -> Heq].
  rewrite Ascii.eqb_refl in Hc. cbn in Hc. by apply (IH s2 x y).
Qed.

Lemma escape_table n : In n code_units -> escape_row n = true.
Proof. revert n. apply forallb_forall. vm_compute. reflexivity. Qed.

Lemma code_unit_listed c : In (nat_of_ascii c) code_units.
Proof. apply in_seq. pose proof (nat_ascii_bounded c). lia. Qed.

Lemma escape_not_quote c x y : escape c +:+ x <> String dquote y.
Proof.
  pose proof (escape_table _ (code_unit_listed c)) as Hrow.
  apply andb_true_iff in Hrow as [Hq _]. rewrite ascii_nat_embedding in Hq.
  apply (clash_sound _ _ x y) in Hq. by rewrite text_app_cons, text_app_nil_l in Hq.
Qed.

Lemma escape_unique c1 c2 x y :
  escape c1 +:+ x = escape c2 +:+ y -> c1 = c2 /\ x = y.
Proof.
  intros Heq. destruct (decide (c1 = c2)) as [->|Hne].
  - split; [done|]. by apply (inj (String.append _)) in Heq.
  - exfalso. pose proof (escape_table _ (code_unit_listed c1)) as Hrow.
    apply andb_true_iff in Hrow as [_ Hrow].
    rewrite forallb_forall in Hrow. specialize (Hrow _ (code_unit_listed c2)).
    rewrite !ascii_nat_embedding in Hrow.
    apply orb_true_iff in Hrow as [Hsame|Hclash].
    + apply Nat.eqb_eq in Hsame. apply Hne.
      by rewrite <- (ascii_nat_embedding c1), <- (ascii_nat_embedding c2), Hsame.
    + by apply (clash_sound _ _ x y) in Hclash.
Qed.

Lemma escape_all_unique s1 : forall s2 r1 r2,
  escape_all s1 +:+ String dquote r1 = escape_all s2 +:+ String dquote r2 ->
  s1 = s2 /\ r1 = r2.
Proof.
  induction s1 as [|c1 s1 IH]; intros [|c2 s2] r1 r2; cbn [escape_all];
    rewrite ?text_app_nil_l, ?text_app_assoc.
  - by intros [= ->].
  - intros Heq. symmetry in Heq. by apply escape_not_quote in Heq.
  - intros Heq. by apply escape_not_quote in Heq.
  - intros Heq. apply escape_unique in Heq as [-> Heq].
    by destruct (IH s2 r1 r2 Heq) as [-> ->].
Qed.

Lemma quote_app s r : quote s +:+ r = String dquote (escape_all s +:+ String dquote r).
Proof. unfold quote. by rewrite text_app_cons, text_app_assoc, text_app_cons, text_app_nil_l. Qed.

Lemma quote_unique s1 s2 r1 r2 :
  quote s1 +:+ r1 = quote s2 +:+ r2 -> s1 = s2 /\ r1 = r2.
Proof. rewrite !quote_app. intros [= Heq]. by apply escape_all_unique. Qed.

(** *** JSON texts *)

Lemma value_nested_ind (P : value -> Prop) :
  P JUndefined -> P JNull -> (forall b, P (JBool b)) -> (forall n, P (JNum n)) ->
  (forall s, P (JStr s)) ->
  (forall items, Forall P items -> P (JArr items)) ->
  (forall props, Forall (fun kv => P kv.2) props -> P (JObj props)) ->
  (forall b, P (JBlob b)) ->
  forall v, P v.
Proof.
  intros Hu Hn Hb Hnum Hs Harr Hobj Hblob.
  fix IH 1. intros [| |b|n|s|items|props|b].
  - exact Hu.
  - exact Hn.
  - apply Hb.
  - apply Hnum.
  - apply Hs.
  - apply Harr. induction items as [|x items IHitems]; constructor.
    + apply IH.
    + exact IHitems.
  - apply Hobj. induction props as [|[k x] props IHprops]; constructor.
    + apply IH.
    + exact IHprops.
  - apply Hblob.
Qed.

Lemma join_after parts z :
  join parts +:+ z = match parts with
                     | [] => z
                     | p :: rest => p +:+ after rest z
                     end.
Proof.
  induction parts as [|p [|q rest] IH]; [done|done|].
  change (join (p :: q :: rest)) with (p +:+ "," +:+ join (q :: rest)).
  by rewrite !text_app_assoc, IH.
Qed.

Lemma serialize_array items :
  serialize (JArr items) = Some ("[" +:+ join (map element items) +:+ "]").
Proof. reflexivity. Qed.

Lemma serialize_object props :
  serialize (JObj props) = Some ("{" +:+ join (omap member props) +:+ "}").
Proof.
  cbn [serialize].
  match goal with
  | |- Some (_ +:+ join ?m +:+ _) = _ =>
      assert (m = omap member props) as ->; [|reflexivity]
  end.
  induction props as [|[k x] props IH]; [done|]. cbn [omap list_omap].
  unfold member at 1. cbn [fst snd]. rewrite <- IH. by destruct (serialize x).
Qed.

Lemma serialize_json v : is_json v = true -> serialize v = Some (stringify v).
Proof. unfold stringify. destruct v as [| |[|]| | | | |]; try done. Qed.

Lemma element_json x : is_json x = true -> element x = stringify x.
Proof. intros H. unfold element. by rewrite serialize_json. Qed.

Lemma elements_json items :
  forallb is_json items = true -> map element items = map stringify items.
Proof.
  induction items as [|x items IH]; [done|]. cbn [forallb map].
  intros [Hx Hrest]%andb_true_iff. by rewrite element_json, IH.
Qed.

Lemma members_json props :
  forallb (fun kv => is_json kv.2) props = true ->
  omap member props = map pair_text props.
Proof.
  induction props as [|[k x] props IH]; [done|]. cbn [forallb omap list_omap map].
  intros [Hx Hrest]%andb_true_iff. unfold member at 1. cbn [fst snd] in *.
  by rewrite serialize_json, IH.
Qed.

Lemma stringify_array items r :
  forallb is_json items = true ->
  stringify (JArr items) +:+ r =
    String "[" (match items with
                | [] => String "]" r
                | x :: rest => stringify x +:+ after (map stringify rest) (String "]" r)
                end).
Proof.
  intros Hj. change (stringify (JArr items))
    with ("[" +:+ join (map element items) +:+ "]").
  rewrite elements_json by done. flatten_app. rewrite join_after.
  by destruct items.
Qed.

Lemma stringify_object props r :
  forallb (fun kv => is_json kv.2) props = true ->
  stringify (JObj props) +:+ r =
    String "{" (match props with
                | [] => String "}" r
                | kv :: rest => pair_text kv +:+ after (map pair_text rest) (String "}" r)
                end).
Proof.
  intros Hj. unfold stringify at 1. rewrite serialize_object, members_json by done.
  change (default ?d (Some ?x)) with x. flatten_app. rewrite join_after.
  by destruct props.
Qed.

Lemma number_char_kind c : number_char c = true -> kind_of_char c = 3%nat.
Proof.
  intros Hc. unfold kind_of_char. rewrite Hc.
  repeat match goal with
    | |- context [Ascii.eqb c ?x] =>
        destruct (Ascii.eqb_spec c x) as [->|_]; [discriminate Hc|]
    end.
  reflexivity.
Qed.

Lemma stringify_head v r :
  is_json v = true ->
  exists c rest, stringify v +:+ r = String c rest /\ kind_of_char c = kind v.
Proof.
  intros Hj. destruct v as [| |[|]|n|s|items|props|b]; try discriminate Hj.
  - by eexists _, _.
  - by eexists _, _.
  - by eexists _, _.
  - destruct (number_to_string_head n) as (c & rest & Hn & Hc).
    exists c, (rest +:+ r). change (stringify (JNum n)) with (number_to_string n).
    rewrite Hn. split; [done|]. by apply number_char_kind.
  - change (stringify (JStr s)) with (quote s). rewrite quote_app. by eexists _, _.
  - rewrite stringify_array by done. by eexists _, _.
  - rewrite stringify_object by done. by eexists _, _.
Qed.

Lemma after_cons p rest z : after (p :: rest) z = String "," (p +:+ after rest z).
Proof. reflexivity. Qed.

Lemma after_stops parts z c z' :
  z = String c z' -> number_char c = false ->
  stops number_char (after parts z).
Proof. intros -> Hc. by destruct parts. Qed.

Lemma elements_unique items1 : forall items2 z1 z2,
  Forall text_unique items1 ->
  forallb is_json items1 = true -> forallb is_json items2 = true ->
  after (map stringify items1) (String "]" z1)
  = after (map stringify items2) (String "]" z2) ->
  items1 = items2 /\ z1 = z2.
Proof.
  induction items1 as [|x1 items1 IH]; intros [|x2 items2] z1 z2 Hall H1 H2;
    cbn [map]; rewrite ?after_cons; cbn [after]; try done.
  - by intros [= ->].
  - intros Heq%string_tail. apply Forall_cons in Hall as [Hx Hall].
    cbn [forallb] in H1, H2.
    apply andb_true_iff in H1 as [Hx1 H1]. apply andb_true_iff in H2 as [Hx2 H2].
    apply Hx in Heq as [-> Heq]; try done; try by eapply after_stops.
    by destruct (IH items2 z1 z2 Hall H1 H2 Heq) as [-> ->].
Qed.

Lemma pair_text_unique k1 x1 k2 x2 r1 r2 :
  text_unique x1 -> is_json x1 = true -> is_json x2 = true ->
  stops number_char r1 -> stops number_char r2 ->
  pair_text (k1, x1) +:+ r1 = pair_text (k2, x2) +:+ r2 ->
  (k1, x1) = (k2, x2) /\ r1 = r2.
Proof.
  intros Hx H1 H2 Hr1 Hr2. unfold pair_text. cbn [fst snd]. rewrite !text_app_assoc.
  intros Heq. apply quote_unique in Heq as [-> Heq].
  apply (inj (String.append ":")) in Heq.
  by apply Hx in Heq as [-> ->].
Qed.

Lemma members_unique props1 : forall props2 z1 z2,
  Forall (fun kv => text_unique kv.2) props1 ->
  forallb (fun kv => is_json kv.2) props1 = true ->
  forallb (fun kv => is_json kv.2) props2 = true ->
  after (map pair_text props1) (String "}" z1)
  = after (map pair_text props2) (String "}" z2) ->
  props1 = props2 /\ z1 = z2.
Proof.
  induction props1 as [|[k1 x1] props1 IH]; intros [|[k2 x2] props2] z1 z2 Hall H1 H2;
    cbn [map]; rewrite ?after_cons; cbn [after]; try done.
  - by intros [= ->].
  - intros Heq%string_tail. apply Forall_cons in Hall as [Hx Hall].
    cbn [snd] in Hx. cbn [forallb snd] in H1, H2.
    apply andb_true_iff in H1 as [Hx1 H1]. apply andb_true_iff in H2 as [Hx2 H2].
    apply pair_text_unique in Heq as [[= -> ->] Heq];
      try done; try by eapply after_stops.
    by destruct (IH props2 z1 z2 Hall H1 H2 Heq) as [-> ->].
Qed.

Lemma same_kind v1 v2 r1 r2 :
  is_json v1 = true -> is_json v2 = true ->
  stringify v1 +:+ r1 = stringify v2 +:+ r2 -> kind v2 = kind v1.
Proof.
  intros H1 H2 Heq.
  destruct (stringify_head v1 r1 H1) as (c1 & t1 & E1 & K1).
  destruct (stringify_head v2 r2 H2) as (c2 & t2 & E2 & K2).
  rewrite E1, E2 in Heq. assert (c1 = c2) by congruence. congruence.
Qed.

Lemma stringify_unique v1 : text_unique v1.
Proof.
  induction v1 as [| |b1|n1|s1|items1 IH|props1 IH|b1] using value_nested_ind;
    intros v2 r1 r2 H1 H2 Hr1 Hr2 Heq; try discriminate H1.
  all: pose proof (same_kind _ _ _ _ H1 H2 Heq) as Hkind.
  - destruct v2 as [| |[|]| | | | |]; try discriminate Hkind.
    split; [done|]. by apply (inj (String.append "null")) in Heq.
  - destruct b1, v2 as [| |[|]| | | | |]; try discriminate Hkind; split; try done.
    + by apply (inj (String.append "true")) in Heq.
    + by apply (inj (String.append "false")) in Heq.
  - destruct v2 as [| |[|]|n2| | | |]; try discriminate Hkind.
    change (stringify (JNum ?n)) with (number_to_string n) in Heq.
    apply word_unique with (p := number_char) in Heq as [Hn ->];
      try done; try apply number_to_string_chars.
    by apply number_to_string_inj in Hn as ->.
  - destruct v2 as [| |[|]| |s2| | |]; try discriminate Hkind.
    change (stringify (JStr ?s)) with (quote s) in Heq.
    by apply quote_unique in Heq as [-> ->].
  - destruct v2 as [| |[|]| | |items2| |]; try discriminate Hkind.
    cbn [is_json] in H1, H2. rewrite !stringify_array in Heq by done.
    apply string_tail in Heq.
    destruct items1 as [|x1 items1], items2 as [|x2 items2].
    + by injection Heq as ->.
    + exfalso. cbn [forallb] in H2. apply andb_true_iff in H2 as [Hx2 _].
      destruct (stringify_head x2 (after (map stringify items2) (String "]" r2)) Hx2)
        as (c & t & E & K). rewrite E in Heq. injection Heq as <- _.
      by destruct x2 as [| |[|]| | | | |].
    + exfalso. cbn [forallb] in H1. apply andb_true_iff in H1 as [Hx1 _].
      destruct (stringify_head x1 (after (map stringify items1) (String "]" r1)) Hx1)
        as (c & t & E & K). rewrite E in Heq. injection Heq as -> _.
      by destruct x1 as [| |[|]| | | | |].
    + apply Forall_cons in IH as [Hx IH]. cbn [forallb] in H1, H2.
      apply andb_true_iff in H1 as [Hx1 H1]. apply andb_true_iff in H2 as [Hx2 H2].
      apply Hx in Heq as [-> Heq]; try done; try by eapply after_stops.
      by destruct (elements_unique items1 items2 r1 r2 IH H1 H2 Heq) as [-> ->].
  - destruct v2 as [| |[|]| | | |props2|]; try discriminate Hkind.
    cbn [is_json] in H1, H2. rewrite !stringify_object in Heq by done.
    apply string_tail in Heq.
    destruct props1 as [|[k1 x1] props1], props2 as [|[k2 x2] props2].
    + by injection Heq as ->.
    + exfalso. unfold pair_text at 1 in Heq. rewrite text_app_assoc, quote_app in Heq.
      discriminate Heq.
    + exfalso. unfold pair_text at 1 in Heq. rewrite text_app_assoc, quote_app in Heq.
      discriminate Heq.
    + apply Forall_cons in IH as [Hx IH]. cbn [snd] in Hx. cbn [forallb snd] in H1, H2.
      apply andb_true_iff in H1 as [Hx1 H1]. apply andb_true_iff in H2 as [Hx2 H2].
      apply pair_text_unique in Heq as [[= -> ->] Heq];
        try done; try by eapply after_stops.
      by destruct (members_unique props1 props2 r1 r2 IH H1 H2 Heq) as [-> ->].
Qed.

(** *** Object literals with ordinary keys *)

Lemma overwrite_fresh k v props : k ∉ props.*1 -> overwrite k v props = None.
Proof.
  induction props as [|[k' v'] props IH]; [done|]. cbn [fmap list_fmap fst overwrite].
  intros Hnot. apply not_elem_of_cons in Hnot as [Hne Hnot].
  destruct (String.eqb_spec k k'); [done|]. by rewrite IH.
Qed.

Lemma place_last k v props :
  array_index k = None -> place k v props = (props ++ [(k, v)])%list.
Proof.
  intros Hk. induction props as [|[k' v'] props IH]; [done|].
  cbn [place]. rewrite Hk. by rewrite IH.
Qed.

Lemma define_appends props kv :
  array_index kv.1 = None -> kv.1 ∉ props.*1 ->
  define props kv = (props ++ [kv])%list.
Proof.
  intros Hk Hfresh. unfold define. rewrite overwrite_fresh by done.
  rewrite place_last by done. by destruct kv.
Qed.

Lemma define_all (inits : list (string * value)) : forall props,
  NoDup ((props ++ inits)%list).*1 ->
  Forall (fun kv => array_index kv.1 = None) inits ->
  fold_left define inits props = (props ++ inits)%list.
Proof.
  induction inits as [|kv inits IH]; intros props Hnd Hkeys; cbn [fold_left].
  - by rewrite List.app_nil_r.
  - apply Forall_cons in Hkeys as [Hk Hkeys].
    rewrite define_appends; [| done |].
    + rewrite IH; [by rewrite <- List.app_assoc | by rewrite <- List.app_assoc | done].
    + rewrite fmap_app, fmap_cons in Hnd. apply NoDup_app in Hnd as (_ & Hdisj & _).
      intros Hin. apply (Hdisj _ Hin). by left.
Qed.

Lemma object_ordinary inits : ordinary inits -> object inits = JObj inits.
Proof.
  intros [Hnd Hall]. unfold object. rewrite define_all; [done|done|].
  eapply Forall_impl; [exact Hall|]. by intros kv [Hk _].
Qed.

(** C3, counterexample: [{a:1,b:2}] and [{b:2,a:1}] get different keys
    for [/prices]. *)
Lemma key_depends_on_insertion_order : ~ key_ignores_insertion_order.
Proof.
  intros H. specialize (H "/prices" a_then_b b_then_a).
  assert (Hkeys : getCacheKey "/prices" (object a_then_b)
                  <> getCacheKey "/prices" (object b_then_a))
    by (vm_compute; discriminate).
  apply Hkeys, H.
  - compute_done.
  - apply perm_swap.
Qed.

(** C3, amended: the cache key follows the order in which the
    parameter object enumerates its properties.  For every endpoint and
    every two parameter objects with JSON values and distinct keys that
    are not integer-like, the cache keys are equal exactly when the two
    objects hold the same key-value pairs in the same insertion order. *)
Theorem key_follows_insertion_order u inits1 inits2 :
  ordinary inits1 -> ordinary inits2 ->
  getCacheKey u (object inits1) = getCacheKey u (object inits2)
  <-> inits1 = inits2.
Proof.
  intros H1 H2. split; [|by intros ->].
  rewrite !object_ordinary by done. unfold getCacheKey. cbn [truthy].
  intros Heq. apply (inj (String.append u)), (inj (String.append ":")) in Heq.
  assert (Hj : forall inits, ordinary inits -> is_json (JObj inits) = true).
  { intros inits [_ Hall]. cbn [is_json]. apply forallb_forall.
    intros kv Hin. rewrite Forall_forall in Hall.
    by apply Hall, list_elem_of_In. }
  destruct (stringify_unique (JObj inits1) (JObj inits2) EmptyString EmptyString)
    as [Hobj _]; try done; try by apply Hj.
  - by rewrite !text_app_nil_r.
  - by injection Hobj.
Qed.

(** C3 on [{a:1,b:2}] and [{b:2,a:1}]: different orders, different
    keys. *)
Lemma key_follows_insertion_order_witness :
  getCacheKey "/prices" (object a_then_b) <> getCacheKey "/prices" (object b_then_a).
Proof.
  intros Heq.
  apply (key_follows_insertion_order "/prices" a_then_b b_then_a) in Heq.
  - discriminate Heq.
  - split; [compute_done|repeat constructor].
  - split; [compute_done|repeat constructor].
Defined.

(** ** Further properties of the cache and of the calls in flight *)

Lemma events_answered_entry :
  cache (world events_answered) !! getCacheKey "/events"
    (object [("category", JStr "Geopolitical"); ("min_impact", JStr "High")])
  = Some {| data := events_payload; timestamp := 150 |}.
Proof.
  apply (delivery_stores (exec boot [Invoke geopolitical (at_time 0)]) 0
           (task_of geopolitical (at_time 0))
           (answer 150 200 events_payload) (at_time 150)).
  - apply exec_well_formed. constructor.
  - by rewrite first_call_waits.
  - reflexivity.
  - unfold events_answered. rewrite (surjective_pairing (step _ _)) at 1. f_equal.
Qed.

Lemma events_answered_reachable : reachable events_answered.
Proof.
  by exists [Invoke geopolitical (at_time 0);
             Deliver 0 (answer 150 200 events_payload) (at_time 150)].
Qed.

(** X1: an entry is stale from exactly five minutes on.  A call that
    finds an entry of its key whose age is 300000 milliseconds or more
    deletes the entry, sends its request and waits. *)
Theorem stale_entry_is_dropped_and_fetched s c e k entry :
  key_of c = Some k ->
  cache (world s) !! k = Some entry ->
  CACHE_DURATION <= now e - timestamp entry ->
  (step s (Invoke c e)).2 = Waiting c
  /\ cache (world (step s (Invoke c e)).1) = delete k (cache (world s))
  /\ network (world (step s (Invoke c e)).1)
     = (network (world s) ++ [outgoing e (url_of c) (config_of c)])%list.
Proof.
  intros Hk Hentry Hold. rewrite step_invoke. cbn zeta. rewrite Hk, Hentry.
  by replace (live entry (now e)) with false by (symmetry; apply Z.ltb_ge; lia).
Qed.

(** On the session: the events query, asked again 300000 milliseconds
    after its answer was stored. *)
Lemma stale_entry_is_dropped_and_fetched_witness :
  (step events_answered (Invoke geopolitical (at_time 300150))).2 = Waiting geopolitical.
Proof.
  apply (stale_entry_is_dropped_and_fetched events_answered geopolitical
           (at_time 300150) _ _ eq_refl events_answered_entry).
  unfold CACHE_DURATION. cbn. lia.
Defined.

(** X2: a hit changes nothing.  When a call returns at once, the whole
    state is as before: no request, no console line, and the entry keeps
    its time stamp, so being read does not prolong its life. *)
Theorem hit_changes_nothing s c e v :
  (step s (Invoke c e)).2 = Returned c v ->
  (step s (Invoke c e)).1 = s
  /\ exists k entry, key_of c = Some k /\ cache (world s) !! k = Some entry
                     /\ data entry = v /\ now e - timestamp entry < CACHE_DURATION.
Proof.
  rewrite step_invoke. cbn zeta.
  destruct (key_of c) as [k|] eqn:Hk; [|done].
  destruct (cache (world s) !! k) as [entry|] eqn:Hentry; [|done].
  destruct (live entry (now e)) eqn:Hlive; [|done].
  destruct (truthy (data entry)); [|done].
  cbn [fst snd]. intros Hv. injection Hv as <-. split; [done|]. exists k, entry.
  split; [done|]. split; [done|]. split; [done|].
  unfold live in Hlive. by apply Z.ltb_lt in Hlive.
Qed.

Lemma hit_changes_nothing_witness :
  (step events_answered (Invoke geopolitical (at_time 1000))).1 = events_answered.
Proof.
  apply (hit_changes_nothing events_answered geopolitical (at_time 1000) events_payload).
  rewrite (served_from_entry events_answered geopolitical (at_time 1000) _ _
             eq_refl events_answered_entry); [reflexivity| |reflexivity].
  unfold CACHE_DURATION. cbn. lia.
Defined.

(** X3: failures are not cached.  When the request of a waiting call
    fails, the cache is exactly as it was before the answer. *)
Theorem failure_leaves_cache s i t wr e :
  reachable s -> pending s !! i = Some t -> fails wr ->
  cache (world (step s (Deliver i wr e)).1) = cache (world s).
Proof.
  intros Hs Ht Hf.
  assert (Hi : issued t).
  { eapply Forall_lookup_1; [apply reachable_well_formed, Hs|apply Ht]. }
  destruct (settle_fails (request t) wr (issued_timeout t Hi) Hf) as (err & Hsettle & _).
  by rewrite (step_deliver s i wr e t Ht Hi), Hsettle.
Qed.

Lemma failure_leaves_cache_witness :
  cache (world (step metrics_requested (Deliver 0 (answer 20 503 JNull) (at_time 20))).1)
  = cache (world metrics_requested).
Proof.
  apply (failure_leaves_cache metrics_requested 0 (task_of FetchMetrics (at_time 0))).
  - by exists [Invoke FetchMetrics (at_time 0)].
  - by rewrite metrics_requested_pending.
  - right. right. eexists. split; [reflexivity|]. cbn. lia.
Defined.

(** X4: the answer to one call settles that call and no other.  A
    response delivered to a waiting call makes it return or throw; the
    call waits no longer and the other waiting calls stay as they are. *)
Theorem delivery_settles_one_call s i t wr e :
  reachable s -> pending s !! i = Some t ->
  pending (step s (Deliver i wr e)).1 = delete i (pending s)
  /\ ((exists v, (step s (Deliver i wr e)).2 = Returned (caller t) v)
      \/ (exists reason, (step s (Deliver i wr e)).2 = Threw (caller t) reason)).
Proof.
  intros Hs Ht.
  assert (Hi : issued t).
  { eapply Forall_lookup_1; [apply reachable_well_formed, Hs|apply Ht]. }
  rewrite (step_deliver s i wr e t Ht Hi).
  destruct (Axios.settle (request t) wr); split; try done; [left|right]; by eexists.
Qed.

Lemma delivery_settles_one_call_witness :
  pending (step metrics_requested (Deliver 0 (answer 20 503 JNull) (at_time 20))).1 = [].
Proof.
  destruct (delivery_settles_one_call metrics_requested 0
              (task_of FetchMetrics (at_time 0)) (answer 20 503 JNull) (at_time 20))
    as [Hp _].
  - by exists [Invoke FetchMetrics (at_time 0)].
  - by rewrite metrics_requested_pending.
  - rewrite Hp, metrics_requested_pending. reflexivity.
Defined.

(** X5: events for one key leave the entries of all other keys alone.
    Apart from [clearCache], a step changes the cache at most under the
    key of the call it runs. *)
Theorem other_keys_are_untouched s ev k :
  reachable s ->
  match ev with
  | Invoke c _ => key_of c <> Some k
  | Deliver i _ _ => forall t, pending s !! i = Some t -> key_of (caller t) <> Some k
  | ClearCache _ => False
  end ->
  cache (world (step s ev).1) !! k = cache (world s) !! k.
Proof.
  intros Hs Hev. destruct ev as [c e|i wr e|e]; [| |done].
  - rewrite step_invoke. cbn zeta.
    destruct (key_of c) as [k'|]; [|done].
    assert (k' <> k) by congruence.
    repeat case_match; try done; cbn [fst world sent evict cache];
      by rewrite lookup_delete_ne.
  - destruct (pending s !! i) as [t|] eqn:Ht; [|by rewrite step_deliver_none].
    assert (Hi : issued t).
    { eapply Forall_lookup_1; [apply reachable_well_formed, Hs|apply Ht]. }
    rewrite (step_deliver s i wr e t Ht Hi). specialize (Hev t eq_refl).
    destruct (Axios.settle (request t) wr); [|done].
    destruct (key_of (caller t)) as [k'|]; [|done].
    cbn [fst world stored cache]. rewrite lookup_insert_ne; [done|congruence].
Qed.

Lemma other_keys_are_untouched_witness :
  cache (world (step events_answered (Invoke FetchMetrics (at_time 900000))).1)
    !! getCacheKey "/events"
         (object [("category", JStr "Geopolitical"); ("min_impact", JStr "High")])
  = Some {| data := events_payload; timestamp := 150 |}.
Proof.
  rewrite (other_keys_are_untouched events_answered
             (Invoke FetchMetrics (at_time 900000))).
  - apply events_answered_entry.
  - apply events_answered_reachable.
  - cbn. discriminate.
Defined.

Lemma step_keeps_requests_out s ev :
  well_formed s ->
  (forall t, t ∈ pending s -> request t ∈ network (world s)) ->
  forall t, t ∈ pending (step s ev).1 -> request t ∈ network (world (step s ev).1).
Proof.
  intros Hwf Hout. destruct ev as [c e|i wr e|e]; [| |done].
  - rewrite step_invoke. cbn zeta.
    assert (Hwait : forall w' t,
      cache w' = cache w' ->
      network w' = network (world s) ->
      t ∈ (pending s ++ [task_of c e])%list ->
      request t ∈ network (sent (request (task_of c e)) w')).
    { intros w' t _ Hnet [Hin|Hin%list_elem_of_singleton]%elem_of_app;
        cbn [sent network]; rewrite Hnet; apply elem_of_app.
      - left. by apply Hout.
      - right. subst t. apply list_elem_of_singleton. reflexivity. }
    repeat case_match; try done; intros t Hin; by apply Hwait.
  - destruct (pending s !! i) as [t0|] eqn:Ht; [|by rewrite step_deliver_none].
    assert (Hi : issued t0) by (eapply Forall_lookup_1; eauto).
    rewrite (step_deliver s i wr e t0 Ht Hi).
    destruct (Axios.settle (request t0) wr); cbn [fst pending world];
      intros t Hin%list_elem_of_delete_inv.
    + destruct (key_of (caller t0)); by apply Hout.
    + by apply Hout.
Qed.

(** X6: no call waits without its request being out.  In every
    reachable state the request of each waiting call is among the
    requests handed to the transport. *)
Theorem waiting_calls_have_requests_out s :
  reachable s -> forall t, t ∈ pending s -> request t ∈ network (world s).
Proof.
  intros [evs <-]. induction evs as [|ev evs IH] using rev_ind.
  - intros t Hin. by apply not_elem_of_nil in Hin.
  - rewrite exec_snoc. apply step_keeps_requests_out; [|done].
    apply exec_well_formed. constructor.
Qed.

Lemma waiting_calls_have_requests_out_witness :
  request (task_of FetchMetrics (at_time 0)) ∈ network (world metrics_requested).
Proof.
  apply (waiting_calls_have_requests_out metrics_requested).
  - by exists [Invoke FetchMetrics (at_time 0)].
  - rewrite metrics_requested_pending. apply list_elem_of_singleton. reflexivity.
Defined.










(** X11: for one endpoint the cache key tells the params apart.  Two
    JSON values whose numbers are integers of magnitude below 2^53 get
    the same key only if they are equal, or if both are falsy (null,
    false, 0, the empty string), which all get the key of a call without
    params. *)
Theorem key_tells_params_apart u v1 v2 :
  is_json v1 = true -> is_json v2 = true ->
  safe_integers v1 = true -> safe_integers v2 = true ->
  getCacheKey u v1 = getCacheKey u v2 ->
  v1 = v2 \/ (truthy v1 = false /\ truthy v2 = false).
Proof.
  intros H1 H2 _ _ Heq. unfold getCacheKey in Heq.
  apply (inj (String.append u)), (inj (String.append ":")) in Heq.
  assert (Hne : forall v, is_json v = true -> stringify v <> EmptyString).
  { intros v Hv Hempty.
    destruct (stringify_head v EmptyString Hv) as (c & rest & Htext & _).
    by rewrite Hempty in Htext. }
  destruct (truthy v1) eqn:T1, (truthy v2) eqn:T2.
  - left.
    destruct (stringify_unique v1 v2 EmptyString EmptyString) as [-> _]; try done.
    by rewrite !text_app_nil_r.
  - exfalso. by apply (Hne v1).
  - exfalso. by apply (Hne v2).
  - by right.
Qed.

Lemma key_tells_params_apart_witness :
  getCacheKey "/prices" (JArr [JNum 1; JNum 12]) <> getCacheKey "/prices" (JArr [JNum 11; JNum 2]).
Proof.
  intros Heq.
  destruct (key_tells_params_apart "/prices" (JArr [JNum 1; JNum 12])
              (JArr [JNum 11; JNum 2]) eq_refl eq_refl eq_refl eq_refl Heq)
    as [H|[H _]];
    discriminate H.
Defined.

(** X12: the response a caching call returns is what the cache holds
    afterwards.  The segment that resolves the call inserts the payload
    under the call's key, stamped with the clock of the arrival, over
    whatever was there; nothing else in the cache changes. *)
Theorem resolved_payload_is_stored s i t wr e k payload :
  reachable s -> pending s !! i = Some t -> key_of (caller t) = Some k ->
  (step s (Deliver i wr e)).2 = Returned (caller t) payload ->
  cache (world (step s (Deliver i wr e)).1)
  = <[k := {| data := payload; timestamp := now e |}]> (cache (world s)).
Proof.
  intros Hs Ht Hk.
  assert (Hi : issued t).
  { eapply Forall_lookup_1; [apply reachable_well_formed, Hs|apply Ht]. }
  rewrite (step_deliver s i wr e t Ht Hi), Hk.
  destruct (Axios.settle (request t) wr) as [r|err]; [|done].
  cbn [fst snd]. by intros [= <-].
Qed.

Lemma resolved_payload_is_stored_witness :
  cache (world (step metrics_requested
                  (Deliver 0 (answer 90 200 metrics_payload) (at_time 90))).1)
  = <["/metrics:" := {| data := metrics_payload; timestamp := 90 |}]>
      (cache (world metrics_requested)).
Proof.
  apply (resolved_payload_is_stored metrics_requested 0
           (task_of FetchMetrics (at_time 0))).
  - by exists [Invoke FetchMetrics (at_time 0)].
  - by rewrite metrics_requested_pending.
  - reflexivity.
  - apply first_answer_returns; lia.
Defined.

(** X13: a falsy response body is stored but never served.  When a
    caching call resolves with a falsy payload (null, false, 0, the empty
    string), the next call for the same key, however soon, does not
    return it from the cache but sends a request again. *)
Theorem falsy_payload_is_never_served s i t wr e2 k payload c e3 :
  reachable s -> pending s !! i = Some t -> key_of (caller t) = Some k ->
  (step s (Deliver i wr e2)).2 = Returned (caller t) payload ->
  truthy payload = false ->
  key_of c = Some k ->
  now e3 - now e2 < CACHE_DURATION ->
  (step (step s (Deliver i wr e2)).1 (Invoke c e3)).2 = Waiting c.
Proof.
  intros Hs Ht Hk Hout Hfalsy Hc Hage.
  apply (falsy_entry_is_fetched_again _ c e3 k
           {| data := payload; timestamp := now e2 |}); try done.
  apply (delivery_stores s i t wr e2 _ payload k); try done.
  - by apply reachable_well_formed.
  - by rewrite (surjective_pairing (step s (Deliver i wr e2))), Hout.
Qed.

Lemma falsy_payload_is_never_served_witness :
  (step (step metrics_requested (Deliver 0 (answer 90 200 JNull) (at_time 90))).1
        (Invoke FetchSummaryMetrics (at_time 91))).2
  = Waiting FetchSummaryMetrics.
Proof.
  apply (falsy_payload_is_never_served metrics_requested 0
           (task_of FetchMetrics (at_time 0)) (answer 90 200 JNull) (at_time 90)
           "/metrics:" JNull).
  - by exists [Invoke FetchMetrics (at_time 0)].
  - by rewrite metrics_requested_pending.
  - reflexivity.
  - apply first_answer_returns; lia.
  - reflexivity.
  - reflexivity.
  - unfold CACHE_DURATION. cbn. lia.
Defined.

(** X14: every failure is written to the console once, a success not
    at all.  A failing answer appends exactly one line to what
    [console.error] has written; an answer that resolves the call appends
    nothing. *)
Theorem failures_are_logged_once s i t wr e :
  reachable s -> pending s !! i = Some t ->
  (fails wr ->
   exists line, console (world (step s (Deliver i wr e)).1)
                = (console (world s) ++ [line])%list)
  /\ (forall v, (step s (Deliver i wr e)).2 = Returned (caller t) v ->
                console (world (step s (Deliver i wr e)).1) = console (world s)).
Proof.
  intros Hs Ht.
  assert (Hi : issued t).
  { eapply Forall_lookup_1; [apply reachable_well_formed, Hs|apply Ht]. }
  rewrite (step_deliver s i wr e t Ht Hi). split.
  - intros Hf.
    destruct (settle_fails (request t) wr (issued_timeout t Hi) Hf)
      as (err & Hsettle & _).
    rewrite Hsettle. cbn [fst world logged console].
    pose proof (settle_rejects _ _ _ Hsettle) as [_ Hresp].
    unfold diagnostic.
    destruct (Axios.response err) as [r|] eqn:Hr.
    + repeat case_match; by eexists.
    + revert Hsettle. unfold Axios.settle.
      destruct (_ && _); [intros [= <-]; by eexists|].
      destruct (Axios.reply wr) as [r|]; [|intros [= <-]; by eexists].
      destruct (Axios.validateStatus _); [done|]. intros [= <-]. discriminate Hr.
  - intros v. destruct (Axios.settle (request t) wr); [|done].
    by destruct (key_of (caller t)).
Qed.

Lemma failures_are_logged_once_witness :
  exists line,
    console (world (step impact_requested (Deliver 0 not_found (at_time 35))).1)
    = (console (world impact_requested) ++ [line])%list.
Proof.
  destruct (failures_are_logged_once impact_requested 0
              (task_of (FetchEventImpact (JStr "unknown")) (at_time 0))
              not_found (at_time 35)) as [Hlog _].
  - by exists [Invoke (FetchEventImpact (JStr "unknown")) (at_time 0)].
  - by rewrite impact_requested_pending.
  - apply Hlog. right. right. eexists. split; [reflexivity|]. cbn. lia.
Defined.

(** X15: [batchRequests] waits for every input.  If one of the input
    promises never settles, the promise of [batchRequests] never settles
    either, whatever became of the others. *)
Theorem batchRequests_waits_for_all requests :
  Exists (fun p => p = Pends) requests -> batchRequests requests = Pends.
Proof.
  intros Hex. unfold batchRequests. by rewrite (allSettled_pends _ Hex).
Qed.

Lemma batchRequests_waits_for_all_witness :
  batchRequests [Fulfils (JNum 1); Pends; Rejects (JStr "down")] = Pends.
Proof.
  apply batchRequests_waits_for_all. right. left. reflexivity.
Defined.

(** ** The URL of [fetchEventImpact] *)

Lemma clash_sym s1 : forall s2, clash s1 s2 = clash s2 s1.
Proof.
  induction s1 as [|c1 s1 IH]; intros [|c2 s2]; cbn [clash]; try done.
  by rewrite IH, Ascii.eqb_sym.
Qed.

Lemma pairwise_clash_lookup texts : forall i j x y,
  pairwise_clash texts = true -> (i < j)%nat ->
  texts !! i = Some x -> texts !! j = Some y -> clash x y = true.
Proof.
  induction texts as [|t texts IH]; intros i j x y Hall Hlt Hi Hj; [done|].
  cbn [pairwise_clash] in Hall. apply andb_true_iff in Hall as [Hrow Hall].
  destruct j as [|j]; [lia|]. destruct i as [|i].
  - injection Hi as <-. rewrite forallb_forall in Hrow. apply Hrow.
    apply list_elem_of_In. by eapply list_elem_of_lookup_2.
  - apply (IH i j); [done|lia|done|done].
Qed.

Lemma encodings_clash : pairwise_clash encodings = true.
Proof. vm_compute. reflexivity. Qed.

Lemma encodings_safe :
  forallb (fun t => negb (String.eqb t EmptyString) && all_chars url_safe t) encodings
  = true.
Proof. vm_compute. reflexivity. Qed.

Lemma encodings_lookup c : encodings !! nat_of_ascii c = Some (encode_unit c).
Proof.
  unfold encodings, code_units. rewrite list_lookup_fmap, lookup_seq_lt.
  - cbn. by rewrite ascii_nat_embedding.
  - pose proof (nat_ascii_bounded c). lia.
Qed.

Lemma encode_unit_facts c :
  encode_unit c <> EmptyString
  /\ all_chars url_safe (encode_unit c) = true
  /\ forall c', c <> c' -> clash (encode_unit c) (encode_unit c') = true.
Proof.
  pose proof encodings_safe as Hsafe. rewrite forallb_forall in Hsafe.
  assert (Hin : In (encode_unit c) encodings).
  { apply list_elem_of_In. eapply list_elem_of_lookup_2, encodings_lookup. }
  apply Hsafe, andb_true_iff in Hin as [Hne Hchars].
  split; [|split; [done|]].
  - intros Hempty. rewrite Hempty in Hne. discriminate Hne.
  - intros c' Hdiff.
    assert (Hn : nat_of_ascii c <> nat_of_ascii c').
    { intros Heq. apply Hdiff.
      by rewrite <- (ascii_nat_embedding c), <- (ascii_nat_embedding c'), Heq. }
    destruct (Nat.lt_total (nat_of_ascii c) (nat_of_ascii c')) as [Hlt|[Heq|Hgt]];
      [|done|].
    + apply (pairwise_clash_lookup encodings _ _ _ _ encodings_clash Hlt);
        apply encodings_lookup.
    + rewrite clash_sym.
      apply (pairwise_clash_lookup encodings _ _ _ _ encodings_clash Hgt);
        apply encodings_lookup.
Qed.



Lemma encodeURIComponent_inj s1 : forall s2,
  encodeURIComponent s1 = encodeURIComponent s2 -> s1 = s2.
Proof.
  induction s1 as [|c1 s1 IH]; intros [|c2 s2]; cbn [encodeURIComponent].
  - done.
  - intros Heq. exfalso. destruct (encode_unit_facts c2) as (Hne & _).
    destruct (encode_unit c2); [done|]. by rewrite text_app_cons in Heq.
  - intros Heq. exfalso. destruct (encode_unit_facts c1) as (Hne & _).
    destruct (encode_unit c1); [done|]. by rewrite text_app_cons in Heq.
  - intros Heq. destruct (decide (c1 = c2)) as [->|Hdiff].
    + apply (inj (String.append _)) in Heq. by rewrite (IH s2 Heq).
    + exfalso. destruct (encode_unit_facts c1) as (_ & _ & Hclash).
      by apply (clash_sound _ _ _ _ (Hclash c2 Hdiff)) in Heq.
Qed.

(** X17: different event names are asked for under different URLs:
    [encodeURIComponent] maps different texts to different texts, and so
    does the URL [fetchEventImpact] builds from a string. *)
Theorem event_names_get_their_own_url name1 name2 :
  url_of (FetchEventImpact (JStr name1)) = url_of (FetchEventImpact (JStr name2)) ->
  name1 = name2.
Proof.
  cbn [url_of to_string]. intros Heq.
  apply (inj (String.append _)) in Heq. by apply encodeURIComponent_inj.
Qed.

Lemma event_names_get_their_own_url_witness :
  url_of (FetchEventImpact (JStr "Gulf War")) <> url_of (FetchEventImpact (JStr "Gulf%20War")).
Proof.
  intros Heq. apply event_names_get_their_own_url in Heq. discriminate Heq.
Defined.

(** ** The pages of the event timeline *)

Lemma totalPages_bounds l :
  let len := Z.of_nat (length l) in
  5 * (totalPages l - 1) < len <= 5 * totalPages l.
Proof.
  cbn zeta. unfold totalPages, Math_ceil_quotient, eventsPerPage.
  pose proof (Z.div_mod (- Z.of_nat (length l)) 5 ltac:(lia)).
  pose proof (Z.mod_pos_bound (- Z.of_nat (length l)) 5 ltac:(lia)). lia.
Qed.

Lemma page_is_a_block l page :
  0 <= page ->
  currentEvents l page = take 5 (drop (Z.to_nat (5 * page)) l).
Proof.
  intros Hpage. unfold currentEvents, slice, relative_index, eventsPerPage.
  destruct (Z.ltb_spec (page * 5) 0) as [?|_]; [lia|].
  destruct (Z.ltb_spec ((page + 1) * 5) 0) as [?|_]; [lia|].
  set (len := Z.of_nat (length l)).
  assert (Hlen : length l = Z.to_nat len) by (unfold len; lia).
  destruct (Z.le_gt_cases len (5 * page)) as [Hout|Hin].
  - rewrite (Z.min_r (page * 5)), (Z.min_r ((page + 1) * 5)) by lia.
    rewrite !drop_ge by lia. by rewrite !take_nil.
  - rewrite (Z.min_l (page * 5)) by lia.
    replace (page * 5) with (5 * page) by lia.
    destruct (Z.le_gt_cases ((page + 1) * 5) len) as [Hfull|Hlast].
    + rewrite Z.min_l by lia. f_equal. lia.
    + rewrite Z.min_r by lia.
      rewrite !take_ge; [done| |]; rewrite length_drop; lia.
Qed.

Lemma pages_up_to l : forall n,
  concat (map (fun page => currentEvents l (Z.of_nat page)) (seq 0 n))
  = take (5 * n) l.
Proof.
  induction n as [|n IH]; [by rewrite Nat.mul_0_r, take_0|].
  rewrite seq_S, map_app, concat_app, IH. cbn [map concat Nat.add].
  rewrite List.app_nil_r, page_is_a_block by lia.
  replace (Z.to_nat (5 * Z.of_nat n)) with (5 * n)%nat by lia.
  replace (5 * S n)%nat with (5 * n + 5)%nat by lia.
  by rewrite take_take_drop.
Qed.

(** X18: shown one after the other, the pages from the first to the last
    give back the sorted events: no event is left out, none shown twice. *)
Theorem pages_cover_the_events sortedEvents :
  concat (all_pages sortedEvents) = sortedEvents.
Proof.
  unfold all_pages. rewrite pages_up_to. apply take_ge.
  pose proof (totalPages_bounds sortedEvents) as Hb. cbn zeta in Hb. lia.
Qed.

Lemma page_length l page :
  0 <= page < totalPages l -> (1 <= length (currentEvents l page) <= 5)%nat.
Proof.
  intros Hpage. rewrite page_is_a_block by lia.
  pose proof (totalPages_bounds l) as Hb. cbn zeta in Hb.
  rewrite length_take, length_drop. lia.
Qed.

Lemma page_past_the_end l page :
  totalPages l <= page -> currentEvents l page = [].
Proof.
  intros Hpage. pose proof (totalPages_bounds l) as Hb.
  cbn zeta in Hb. rewrite page_is_a_block by lia.
  rewrite drop_ge by lia. apply take_nil.
Qed.

(** X19: a page within the range shows at least one event and at most
    five. *)
Theorem page_in_range_shows_events sortedEvents currentPage :
  0 <= currentPage < totalPages sortedEvents ->
  (1 <= length (currentEvents sortedEvents currentPage) <= 5)%nat.
Proof. apply page_length. Qed.

Lemma page_in_range_shows_events_witness :
  (1 <= length (currentEvents seven_events 1) <= 5)%nat.
Proof. apply page_in_range_shows_events. by vm_compute. Defined.

(** X20: a page from the page count on shows nothing. *)
Theorem page_past_the_end_is_empty sortedEvents currentPage :
  totalPages sortedEvents <= currentPage ->
  currentEvents sortedEvents currentPage = [].
Proof. apply page_past_the_end. Qed.

Lemma page_past_the_end_is_empty_witness : currentEvents seven_events 2 = [].
Proof. apply page_past_the_end_is_empty. by vm_compute. Defined.

Lemma click_in_range l page c :
  0 <= page < totalPages l -> 0 <= click l page c < totalPages l.
Proof.
  intros Hpage. destruct c; cbn [click];
    unfold previous_disabled, next_disabled, handlePrevious, handleNext;
    repeat case_match; lia.
Qed.

(** X21: while there is at least one event, no series of clicks on the two
    buttons leaves the range of the pages. *)
Theorem clicks_stay_in_range sortedEvents clicks :
  sortedEvents <> [] ->
  0 <= page_after sortedEvents clicks < totalPages sortedEvents.
Proof.
  intros Hne. unfold page_after.
  assert (Hstart : 0 <= 0 < totalPages sortedEvents).
  { pose proof (totalPages_bounds sortedEvents) as Hb. cbn zeta in Hb.
    destruct sortedEvents; [done|]. cbn [length] in Hb. lia. }
  assert (Hfold : forall page, 0 <= page < totalPages sortedEvents ->
            0 <= fold_left (click sortedEvents) clicks page
              < totalPages sortedEvents).
  { induction clicks as [|c clicks IH]; intros page Hpage; [done|].
    cbn [fold_left]. by apply IH, click_in_range. }
  by apply Hfold.
Qed.

Lemma clicks_stay_in_range_witness :
  0 <= page_after seven_events [Next; Next; Previous; Next]
    < totalPages seven_events.
Proof. by apply clicks_stay_in_range. Defined.

(** X22: the Next button is disabled exactly on the last page, the Previous
    button exactly on the first, and an enabled button moves by one page. *)
Theorem enabled_button_moves_one_page sortedEvents currentPage :
  0 <= currentPage < totalPages sortedEvents ->
  click sortedEvents currentPage Next
    = (if next_disabled sortedEvents currentPage then currentPage
       else currentPage + 1)
  /\ click sortedEvents currentPage Previous
    = (if previous_disabled currentPage then currentPage else currentPage - 1)
  /\ (next_disabled sortedEvents currentPage = true
      <-> currentEvents sortedEvents (currentPage + 1) = []).
Proof.
  intros Hpage. cbn [click]. unfold next_disabled, previous_disabled,
    handleNext, handlePrevious.
  split; [|split].
  - destruct (Z.eqb_spec currentPage (totalPages sortedEvents - 1)); lia.
  - destruct (Z.eqb_spec currentPage 0); lia.
  - rewrite Z.eqb_eq. split.
    + intros Hlast. apply page_past_the_end. lia.
    + intros Hempty.
      destruct (Z.eq_dec currentPage (totalPages sortedEvents - 1)); [done|].
      pose proof (page_length sortedEvents (currentPage + 1)
                    ltac:(lia)) as Hlen.
      rewrite Hempty in Hlen. cbn in Hlen. lia.
Qed.

Lemma enabled_button_moves_one_page_witness :
  click seven_events 0 Next = 1 /\ click seven_events 0 Previous = 0.
Proof.
  destruct (enabled_button_moves_one_page seven_events 0) as (Hn & Hp & _).
  - by vm_compute.
  - split; [apply Hn|apply Hp].
Defined.

(** X23: on a timeline without events the Next button is enabled; after a
    click on it the page is -1, whatever was clicked before, and that page
    shows none of the events that arrive later. *)
Theorem next_on_empty_timeline clicks sortedEvents :
  page_after [] (clicks ++ [Next]) = -1
  /\ currentEvents sortedEvents (page_after [] (clicks ++ [Next])) = [].
Proof.
  assert (Hpage : page_after [] (clicks ++ [Next]) = -1).
  { unfold page_after. rewrite fold_left_app. cbn [fold_left].
    assert (Hprev : forall page, page = 0 \/ page = -1 ->
              fold_left (click []) clicks page = 0
              \/ fold_left (click []) clicks page = -1).
    { induction clicks as [|c clicks IH]; intros page Hp; [done|].
      cbn [fold_left]. apply IH.
      destruct Hp as [-> | ->], c; vm_compute; auto. }
    destruct (Hprev 0 (or_introl eq_refl)) as [-> | ->]; reflexivity. }
  split; [done|]. rewrite Hpage.
  unfold currentEvents, slice, relative_index, eventsPerPage.
  change ((-1 + 1) * 5 <? 0) with false. change (-1 * 5 <? 0) with true.
  cbv iota. replace (Z.to_nat _) with 0%nat by lia. apply take_0.
Qed.
